(** * md_feed: rolling kline cache and polling feed

    A shallow embedding of [md_feed/cache.py], [md_feed/feed.py] and
    [md_feed/facade.py], and the properties of the cache's merge, eviction and
    change-flag logic and of the polling loop.

    Conventions of the embedding.
    - A pandas [DataFrame] is the list of its rows in positional order, each
      row being its index label (a timestamp, in nanoseconds, as [Z]) and its
      column values.  Order and repeated labels matter, so no finite map is
      used here.
    - DataFrames are Python objects: the cache's dict maps a ticker to a
      reference, and references point into a heap.  An in-place assignment
      ([existing.loc[k] = ...]) rewrites the object behind the reference;
      [copy], [concat], [sort_index] and boolean masking build a new object.
    - [pd.Timestamp.now] is a clock reading handed to the operation that
      reads it; exceptions are values of [Result]. *)

From Stdlib Require Import ZArith QArith List Sorted Permutation Lia Bool.
From stdpp Require Import gmap strings list.

Local Open Scope Z_scope.

(** ** Data model *)

(** One row of OHLCV values (the columns of the frames yfinance returns that
    the tests build).  Prices are only stored and copied, never computed on. *)
Record Candle := mkCandle {
  Open : Q;
  High : Q;
  Low : Q;
  Close : Q;
  Volume : Z
}.

(** A row: index label (timestamp) and values. *)
Abbreviation Row := (Z * Candle)%type.

(** A DataFrame with a DatetimeIndex. *)
Abbreviation DataFrame := (list (Z * Candle)).

(** References to DataFrame objects, and the heap they live in. *)
Abbreviation Ref := nat.
Abbreviation Heap := (list (list (Z * Candle))).

Inductive Exn :=
| IndexError
| KeyError
| SourceError (msg : string).

Inductive Result (A : Type) :=
| Ok (a : A)
| Raise (e : Exn).
Arguments Ok {A} a.
Arguments Raise {A} e.

(** State and exception monad: the state survives a raised exception, as the
    objects of a Python program do. *)
Definition M (S A : Type) : Type := S -> Result A * S.

Definition ret {S A} (a : A) : M S A := fun s => (Ok a, s).

Definition bind {S A B} (m : M S A) (k : A -> M S B) : M S B :=
  fun s => match m s with
           | (Ok a, s') => k a s'
           | (Raise e, s') => (Raise e, s')
           end.

Definition raise {S A} (e : Exn) : M S A := fun s => (Raise e, s).

Definition lift_result {S A} (r : Result A) : M S A := fun s => (r, s).

Notation "'let*' x ':=' m 'in' k" := (bind m (fun x => k))
  (at level 10, x name, m at level 100, k at level 200).

(** ** pandas operations used by the cache *)

Module pd.

(** [df.empty] *)
Definition empty (df : DataFrame) : bool :=
  match df with [] => true | _ :: _ => false end.

(** [df.index] *)
Definition index (df : DataFrame) : list Z := map fst df.

(** [k in df.index] *)
Definition contains (k : Z) (idx : list Z) : bool := existsb (Z.eqb k) idx.

(** Positional access with Python's negative positions. *)
Definition position {A} (l : list A) (i : Z) : Result A :=
  let n := Z.of_nat (length l) in
  let j := if i <? 0 then n + i else i in
  if (0 <=? j) && (j <? n) then
    match nth_error l (Z.to_nat j) with
    | Some a => Ok a
    | None => Raise IndexError
    end
  else Raise IndexError.

(** [df.iloc[[i]]]: the one-row frame at position [i]. *)
Definition iloc_frame (df : DataFrame) (i : Z) : Result DataFrame :=
  match position df i with
  | Ok r => Ok [r]
  | Raise e => Raise e
  end.

(** [df.iloc[i]]: the values of the row at position [i]. *)
Definition iloc (df : DataFrame) (i : Z) : Result Candle :=
  match position df i with
  | Ok r => Ok (snd r)
  | Raise e => Raise e
  end.

(** [df.index[i]] *)
Definition index_at (df : DataFrame) (i : Z) : Result Z :=
  position (index df) i.

(** [df.loc[k] = v] for a label [k] that is in the index once: the row
    labelled [k] takes the values [v], the others stay.  This is the
    assignment of a Series to one row.  Where [k] labels several rows
    pandas aligns the Series against those rows' labels instead of writing
    it into each of them; that case is outside this definition, and the
    statements on updates of an existing history whose result depends on it
    are made for histories whose timestamps do not repeat. *)
Definition loc_set (k : Z) (v : Candle) (df : DataFrame) : DataFrame :=
  map (fun r : Row => if fst r =? k then (fst r, v) else r) df.

(** [pd.concat([a, b])] *)
Definition concat (a b : DataFrame) : DataFrame := a ++ b.

(** [df.sort_index()]: rows in ascending label order.  Rows with equal
    labels keep their order (pandas returns a frame whose index is already
    monotonic as it is; an already sorted list is a fixed point here, see
    [sort_index_sorted_id]). *)
Fixpoint insert_row (r : Row) (df : DataFrame) : DataFrame :=
  match df with
  | [] => [r]
  | x :: df' => if fst r <=? fst x then r :: x :: df'
                else x :: insert_row r df'
  end.

Fixpoint sort_index (df : DataFrame) : DataFrame :=
  match df with
  | [] => []
  | r :: df' => insert_row r (sort_index df')
  end.

(** [df[df.index >= cutoff]] *)
Definition mask_ge (cutoff : Z) (df : DataFrame) : DataFrame :=
  List.filter (fun r : Row => cutoff <=? fst r) df.

End pd.

(** ** md_feed/cache.py *)

Record KlineCache := mkKlineCache {
  _data : gmap string nat;
  _max_period : Z
}.

(** The cache object together with the heap its references point into. *)
Record Store := mkStore {
  self : KlineCache;
  heap : Heap
}.

(** [KlineCache(max_period)] in a given heap. *)
Definition new_cache (max_period : Z) (h : Heap) : Store :=
  mkStore (mkKlineCache ∅ max_period) h.

(** The default [max_period], [timedelta(days=180)], in nanoseconds. *)
Definition days (n : Z) : Z := n * 86400 * 1000000000.
Definition default_max_period : Z := days 180.

(** *** Heap primitives *)

(** A new object holding [df]. *)
Definition new (df : DataFrame) : M Store Ref :=
  fun s => (Ok (length (heap s)), mkStore (self s) (heap s ++ [df])).

(** The contents of the object behind [l]. *)
Definition read (h : Heap) (l : Ref) : DataFrame := default [] (h !! l).

Definition load (l : Ref) : M Store DataFrame :=
  fun s => (Ok (read (heap s) l), s).

(** In-place modification of the object behind [l]. *)
Definition modify (l : Ref) (f : DataFrame -> DataFrame) : M Store unit :=
  fun s => (Ok tt, mkStore (self s) (<[l := f (read (heap s) l)]> (heap s))).

(** [self._data[ticker] = l] *)
Definition set_item (ticker : string) (l : Ref) : M Store unit :=
  fun s => (Ok tt,
            mkStore (mkKlineCache (<[ticker := l]> (_data (self s)))
                                  (_max_period (self s)))
                    (heap s)).

(** [self._data.get(ticker)] *)
Definition get_item (ticker : string) : M Store (option Ref) :=
  fun s => (Ok (_data (self s) !! ticker), s).

Definition max_period : M Store Z :=
  fun s => (Ok (_max_period (self s)), s).

(** *** KlineCache._evict_old *)
Definition _evict_old (now : Z) (ticker : string) : M Store unit :=
  let* o := get_item ticker in
  match o with
  | None => ret tt
  | Some df =>
      let* rows := load df in
      if pd.empty rows then ret tt
      else
        let* p := max_period in
        let cutoff := now - p in
        let* kept := new (pd.mask_ge cutoff rows) in
        set_item ticker kept
  end.

(** The block the source writes three times, for the closed candle, the open
    candle and the single candle: replace the row in place if its label is in
    the index, else append it.  Returns the reference [existing] is bound to
    afterwards. *)
Definition upsert (candle : DataFrame) (existing : Ref) : M Store Ref :=
  let* idx := lift_result (pd.index_at candle 0) in
  let* rows := load existing in
  if pd.contains idx (pd.index rows) then
    let* v := lift_result (pd.iloc candle 0) in
    let* _ := modify existing (pd.loc_set idx v) in
    ret existing
  else
    new (pd.concat rows candle).

(** *** KlineCache.update *)
Definition update (now : Z) (ticker : string) (new_candles : option DataFrame)
  : M Store bool :=
  match new_candles with
  | None => ret false
  | Some new_candles =>
      if pd.empty new_candles then ret false
      else
        let n_candles := length new_candles in
        let* o := get_item ticker in
        match o with
        | None =>
            let* copy := new new_candles in
            let* _ := set_item ticker copy in
            let* _ := _evict_old now ticker in
            ret true
        | Some existing =>
            let* existing :=
              if (2 <=? n_candles)%nat then
                let* closed_candle := lift_result (pd.iloc_frame new_candles (-2)) in
                let* open_candle := lift_result (pd.iloc_frame new_candles (-1)) in
                let* existing := upsert closed_candle existing in
                upsert open_candle existing
              else if (n_candles =? 1)%nat then
                let* open_candle := lift_result (pd.iloc_frame new_candles (-1)) in
                upsert open_candle existing
              else ret existing in
            let* rows := load existing in
            let* sorted := new (pd.sort_index rows) in
            let* _ := set_item ticker sorted in
            let* _ := _evict_old now ticker in
            ret true
        end
  end.

(** *** KlineCache.get *)
Definition get (ticker : string) : M Store (option Ref) := get_item ticker.

(** What the cache holds for [ticker]: the rows behind the stored reference. *)
Definition stored (s : Store) (ticker : string) : option DataFrame :=
  read (heap s) <$> _data (self s) !! ticker.

(** The reference held for [ticker] points to an object of the heap. *)
Definition live (s : Store) (ticker : string) : Prop :=
  exists l, _data (self s) !! ticker = Some l /\ (l < length (heap s))%nat.

(** ** The cache seen as a function on rows

    What [update] does to the rows held for one ticker, written on lists.
    [update_stored] below proves that the code computes exactly this. *)

(** Replace in place or append (the effect of [upsert] on the rows). *)
Definition upsert_rows (r : Row) (rows : DataFrame) : DataFrame :=
  if pd.contains (fst r) (pd.index rows) then pd.loc_set (fst r) (snd r) rows
  else rows ++ [r].

(** The rows [update] stores before it calls [_evict_old], for a ticker that
    already has a history [existing]. *)
Definition merge_rows (existing new_candles : DataFrame) : DataFrame :=
  match rev new_candles with
  | [] => pd.sort_index existing
  | [o] => pd.sort_index (upsert_rows o existing)
  | o :: c :: _ => pd.sort_index (upsert_rows o (upsert_rows c existing))
  end.

(** The rows before eviction, first load or not. *)
Definition pre_evict (old : option DataFrame) (new_candles : DataFrame)
  : DataFrame :=
  match old with
  | None => new_candles
  | Some existing => merge_rows existing new_candles
  end.

(** The rows held after a call with a non-empty batch. *)
Definition update_rows (now p : Z) (old : option DataFrame)
  (new_candles : DataFrame) : DataFrame :=
  pd.mask_ge (now - p) (pre_evict old new_candles).

(** Timestamps in ascending order without repetition. *)
Definition ascending (df : DataFrame) : Prop :=
  Sorted Z.lt (pd.index df).

(** Timestamps in ascending order, repetitions allowed. *)
Definition monotonic (df : DataFrame) : Prop :=
  Sorted Z.le (pd.index df).

(** Decision procedures for the two, for evaluation on concrete frames. *)
Fixpoint is_sorted (lt : Z -> Z -> bool) (l : list Z) : bool :=
  match l with
  | [] => true
  | x :: l' => match l' with
               | [] => true
               | y :: _ => lt x y && is_sorted lt l'
               end
  end.

Definition is_ascending (df : DataFrame) : bool := is_sorted Z.ltb (pd.index df).
Definition is_monotonic (df : DataFrame) : bool := is_sorted Z.leb (pd.index df).

(** What an update with the batch [new_candles] leaves in the object that
    held the history before the call: the rows assigned in place.  Once a row
    had to be appended, [existing] is bound to a new object and the old one is
    written no more. *)
Definition old_object_after (new_candles rows : DataFrame) : DataFrame :=
  match rev new_candles with
  | [] => rows
  | [o] => pd.loc_set (fst o) (snd o) rows
  | o :: c :: _ =>
      if pd.contains (fst c) (pd.index rows)
      then pd.loc_set (fst o) (snd o) (pd.loc_set (fst c) (snd c) rows)
      else rows
  end.

(** An upsert that is carried out only if the row survives the cutoff. *)
Definition upsert_if (b : bool) (r : Row) (df : DataFrame) : DataFrame :=
  if b then upsert_rows r df else df.

(** ** tests/test_cache.py: the frames the tests build *)

Module tests.

(** [Timestamp.normalize]: midnight of the timestamp's day. *)
Definition normalize (t : Z) : Z := t - t mod days 1.

Definition candle (price : Z) : Candle :=
  mkCandle (inject_Z price) (inject_Z (price + 1)) (inject_Z (price - 1))
           (inject_Z price) 1000.

(** [make_candles(days_ago, close_prices)], at clock reading [now]. *)
Fixpoint make_candles (now : Z) (days_ago close_prices : list Z) : DataFrame :=
  match days_ago, close_prices with
  | d :: days_ago', p :: close_prices' =>
      (normalize (now - days d), candle p)
        :: make_candles now days_ago' close_prices'
  | _, _ => []
  end.

End tests.

(** ** md_feed/handler.py, md_feed/feed.py, md_feed/facade.py *)

(** The handler protocol.  The handler is handed the DataFrame object itself;
    [on_kline_data df ticker] is how the call ends, by returning or by
    raising, and what that object holds then (a handler that only reads
    gives [(Ok tt, df)]).  A handler is seen here through what it does with
    its two arguments; one that reaches the feed or the cache by another way
    is outside this record. *)
Record KlineHandler := mkKlineHandler {
  on_kline_data : DataFrame -> string -> Result unit * DataFrame
}.

(** The data source: the result of the [n]-th call of
    [yf.Ticker(ticker).history(period=.., interval=..)], a frame or a raised
    exception. *)
Record Source := mkSource {
  history : nat -> string -> string -> string -> Result DataFrame
}.

(** What the feed does that the outside can see. *)
Inductive Event :=
| Fetch (ticker period interval : string)
| Update (ticker : string) (changed : bool)
| Callback (ticker : string) (df : Ref).

(** The cache and its heap, the wall clock (nanoseconds), the number of
    fetches made so far and the events so far. *)
Record World := mkWorld {
  store : Store;
  clock : Z;
  fetches : nat;
  trace : list Event
}.

Record MDFeed := mkMDFeed {
  _tickers : list string;
  _poll_interval : Z;
  _lookback_period : string;
  _poll_lookback : string;
  _interval : string;
  _handler : option KlineHandler;
  _running : bool
}.

Definition seconds (n : Z) : Z := n * 1000000000.

Definition emit (e : Event) : M World unit :=
  fun w => (Ok tt, mkWorld (store w) (clock w) (fetches w) (trace w ++ [e])).

(** [yf.Ticker(ticker).history(period=period, interval=interval)] *)
Definition yf_history (src : Source) (ticker period interval : string)
  : M World DataFrame :=
  fun w => (history src (fetches w) ticker period interval,
            mkWorld (store w) (clock w) (S (fetches w))
                    (trace w ++ [Fetch ticker period interval])).

(** A cache operation, run on the world's store. *)
Definition on_cache {A} (m : M Store A) : M World A :=
  fun w => let (r, st) := m (store w) in
           (r, mkWorld st (clock w) (fetches w) (trace w)).

(** [self._cache.update(ticker, df)]; the clock is read inside. *)
Definition cache_update (ticker : string) (df : DataFrame) : M World bool :=
  fun w =>
    (let* changed := on_cache (update (clock w) ticker (Some df)) in
     let* _ := emit (Update ticker changed) in
     ret changed) w.

(** [self._handler.on_kline_data(full_df, ticker)]: the call is not guarded,
    what the handler raises is raised by the caller. *)
Definition call_handler (h : KlineHandler) (full_df : Ref) (ticker : string)
  : M World unit :=
  let* _ := emit (Callback ticker full_df) in
  let* rows := on_cache (load full_df) in
  let* _ := on_cache (modify full_df
                        (fun _ => snd (on_kline_data h rows ticker))) in
  lift_result (fst (on_kline_data h rows ticker)).

(** [time.sleep(0.1)] *)
Definition sleep (d : Z) : M World unit :=
  fun w => (Ok tt, mkWorld (store w) (clock w + d) (fetches w) (trace w)).

Module feed.

(** [MDFeed(tickers, cache, ...)] with the defaults of the source. *)
Definition new (tickers : list string) (poll_interval : Z) : MDFeed :=
  mkMDFeed tickers poll_interval "6mo" "2d" "1d" None false.

Definition default_poll_interval : Z := seconds 60.

Definition set_handler (h : KlineHandler) (self : MDFeed) : MDFeed :=
  mkMDFeed (_tickers self) (_poll_interval self) (_lookback_period self)
           (_poll_lookback self) (_interval self) (Some h) (_running self).

Definition set_running (b : bool) (self : MDFeed) : MDFeed :=
  mkMDFeed (_tickers self) (_poll_interval self) (_lookback_period self)
           (_poll_lookback self) (_interval self) (_handler self) b.

(** [MDFeed.stop] *)
Definition stop (self : MDFeed) : MDFeed := set_running false self.

(** [MDFeed.initialize]: the loop over [self._tickers]. *)
Fixpoint initialize_from (self : MDFeed) (src : Source)
  (tickers : list string) : M World unit :=
  match tickers with
  | [] => ret tt
  | ticker :: rest =>
      let* df := yf_history src ticker (_lookback_period self)
                            (_interval self) in
      let* _ := cache_update ticker df in
      initialize_from self src rest
  end.

Definition initialize (self : MDFeed) (src : Source) : M World unit :=
  initialize_from self src (_tickers self).

(** [MDFeed._poll_all]: the loop over [self._tickers]. *)
Fixpoint _poll_from (self : MDFeed) (src : Source) (tickers : list string)
  : M World unit :=
  match tickers with
  | [] => ret tt
  | ticker :: rest =>
      let* df := yf_history src ticker (_poll_lookback self)
                            (_interval self) in
      let* has_new_closed := cache_update ticker df in
      let* _ :=
        match has_new_closed, _handler self with
        | true, Some h =>
            let* full_df := on_cache (get ticker) in
            match full_df with
            | Some full_df => call_handler h full_df ticker
            | None => ret tt
            end
        | _, _ => ret tt
        end in
      _poll_from self src rest
  end.

Definition _poll_all (self : MDFeed) (src : Source) : M World unit :=
  _poll_from self src (_tickers self).

(** One pass through the body of the [while self._running] loop of
    [MDFeed.run], from the value of [last_poll] to its next value. *)
Definition run_iteration (self : MDFeed) (src : Source) (last_poll : Z)
  : M World Z :=
  fun w =>
    let now := clock w in
    (let* last_poll :=
       if _poll_interval self <=? now - last_poll then
         let* _ := _poll_all self src in
         ret now
       else ret last_poll in
     let* _ := sleep 100000000 in
     ret last_poll) w.

(** [MDFeed.run], cut off after [fuel] passes; nothing in this model
    clears [_running] from inside the loop. *)
Fixpoint run_loop (fuel : nat) (self : MDFeed) (src : Source) (last_poll : Z)
  : M World Z :=
  match fuel with
  | O => ret last_poll
  | S fuel' =>
      if _running self then
        let* last_poll := run_iteration self src last_poll in
        run_loop fuel' self src last_poll
      else ret last_poll
  end.

Definition run (fuel : nat) (self : MDFeed) (src : Source) : M World Z :=
  run_loop fuel (set_running true self) src 0.

End feed.

Module facade.

(** [MDFeedFacade.initialize]: the loop that builds [result]. *)
Fixpoint counts (tickers : list string) (result : gmap string nat)
  : M World (gmap string nat) :=
  match tickers with
  | [] => ret result
  | ticker :: rest =>
      let* df := on_cache (get ticker) in
      let* n := match df with
                | Some df => let* rows := on_cache (load df) in
                             ret (length rows)
                | None => ret 0%nat
                end in
      counts rest (<[ticker := n]> result)
  end.

Definition initialize (self : MDFeed) (src : Source)
  : M World (gmap string nat) :=
  let* _ := feed.initialize self src in
  counts (_tickers self) ∅.

(** [MDFeedFacade.get] *)
Definition get (ticker : string) : M World (option Ref) :=
  on_cache (get ticker).

End facade.

(** ** Observations on traces and stores *)


(** The tickers fetched, in order, according to a trace. *)
Fixpoint fetched (tr : list Event) : list string :=
  match tr with
  | [] => []
  | Fetch ticker _ _ :: tr' => ticker :: fetched tr'
  | _ :: tr' => fetched tr'
  end.

(** The number [MDFeedFacade.initialize] reports for a ticker. *)
Definition count (s : Store) (ticker : string) : nat :=
  match stored s ticker with
  | Some rows => length rows
  | None => 0%nat
  end.

(** ** Frames, stores and feeds of the concrete runs *)

(** Frames and states of the runs below. *)
Definition X : string := "X".

Definition batch_unsorted : DataFrame :=
  [(days 5, tests.candle 100); (days 3, tests.candle 101);
   (days 5, tests.candle 102)].

Definition fresh30 : Store := new_cache (days 30) [].

Definition AAPL : string := "AAPL".
Definition MSFT : string := "MSFT".

Definition baseline : DataFrame :=
  [(days 8, tests.candle 100); (days 9, tests.candle 101)].

Definition poll : DataFrame :=
  [(days 9, tests.candle 105); (days 10, tests.candle 102)].

Definition hours (n : Z) : Z := n * 3600 * 1000000000.
Definition minutes (n : Z) : Z := n * 60 * 1000000000.

Definition daily_baseline : DataFrame :=
  [(days 9, tests.candle 100); (days 10, tests.candle 101)].

Definition daily_poll : DataFrame :=
  [(days 10, tests.candle 105); (days 11, tests.candle 102)].

Definition hourly_history : DataFrame :=
  [(days 10 - days 30 + hours 12, tests.candle 90);
   (days 10 + hours 10, tests.candle 100)].

Definition hourly_poll : DataFrame :=
  [(days 10 + hours 10, tests.candle 101);
   (days 10 + hours 11, tests.candle 102)].

(** The cache after the baseline was loaded at day 10, 30 days retained. *)
Definition primed : Store := snd (update (days 10) X (Some baseline) fresh30).

(** A source whose fetch for [AAPL] raises and whose other fetches return two
    daily candles. *)
Definition failing_source : Source :=
  mkSource (fun _ ticker _ _ =>
              if String.eqb ticker AAPL then Raise (SourceError "timeout")
              else Ok (tests.make_candles (days 1000) [2; 1] [100; 101])).

Definition two_tickers : MDFeed := feed.new [AAPL; MSFT] (seconds 60).

Definition world0 : World :=
  mkWorld (new_cache default_max_period []) (days 1000) 0 [].

(** A handler that only reads the frame it is handed, and one that drops the
    rows of the frame in place and then raises. *)
Definition reader : KlineHandler := mkKlineHandler (fun df _ => (Ok tt, df)).

Definition dropping_handler : KlineHandler :=
  mkKlineHandler (fun _ _ => (Raise KeyError, [])).

(** A feed tracking [MSFT] with the dropping handler registered. *)
Definition msft_dropped : MDFeed :=
  feed.set_handler dropping_handler (feed.new [MSFT] (seconds 60)).

(** A feed polling every 10 seconds, 4 seconds after its last poll. *)
Definition every_10s : MDFeed := feed.new [AAPL] (seconds 10).

Definition world_4s : World :=
  mkWorld (new_cache default_max_period []) (days 1000 + seconds 4) 1 [].

(** ** Shape of the cache's references *)

(** Every reference the cache holds points to an object of the heap, and no
    two tickers hold the same reference. *)
Definition well_formed (s : Store) : Prop :=
  forall t l,
    _data (self s) !! t = Some l ->
    (l < length (heap s))%nat
    /\ (forall t', _data (self s) !! t' = Some l -> t' = t).

(** No history the cache holds has a repeated timestamp. *)
Definition unique_timestamps (s : Store) : Prop :=
  forall t old, stored s t = Some old -> NoDup (pd.index old).

(** A sequence of [update] calls, each with its clock reading, ticker and
    batch, run one after the other. *)
Definition update_all (calls : list (Z * string * option DataFrame))
  (s : Store) : Store :=
  fold_left (fun s call =>
               match call with
               | (now, ticker, batch) => snd (update now ticker batch s)
               end)
            calls s.

(** The batch of a call is ascending (nothing is asked of [None]). *)
Definition batch_ascending (call : Z * string * option DataFrame) : Prop :=
  match call with
  | (_, _, Some new_candles) => ascending new_candles
  | (_, _, None) => True
  end.

(** ** Observations on what the feed did *)

(** The tickers the handler was called for, in order, according to a trace. *)
Fixpoint callbacks (tr : list Event) : list string :=
  match tr with
  | [] => []
  | Callback ticker _ :: tr' => ticker :: callbacks tr'
  | _ :: tr' => callbacks tr'
  end.

(** The [update] calls a loop over [tickers] makes when its fetches are the
    source's calls number [n], [n + 1], ...: one call per fetched frame, up
    to the first fetch that raises. *)
Fixpoint fetched_calls (src : Source) (period interval : string) (now : Z)
  (n : nat) (tickers : list string) : list (Z * string * option DataFrame) :=
  match tickers with
  | [] => []
  | ticker :: rest =>
      match history src n ticker period interval with
      | Ok df => (now, ticker, Some df)
                   :: fetched_calls src period interval now (S n) rest
      | Raise _ => []
      end
  end.

(** The tickers whose fetched frame has rows, up to the first fetch that
    raises. *)
Fixpoint fetched_nonempty (src : Source) (period interval : string)
  (n : nat) (tickers : list string) : list string :=
  match tickers with
  | [] => []
  | ticker :: rest =>
      match history src n ticker period interval with
      | Ok df => (if pd.empty df then [] else [ticker])
                   ++ fetched_nonempty src period interval (S n) rest
      | Raise _ => []
      end
  end.

(** The calls of the registered handler return: none of them raises. *)
Definition handler_returns (fd : MDFeed) : Prop :=
  forall h df ticker,
    _handler fd = Some h -> fst (on_kline_data h df ticker) = Ok tt.

(** The events [initialize] may add to a trace: fetches of tracked tickers
    over the initial lookback window, and updates of tracked tickers. *)
Definition initialize_event (fd : MDFeed) (e : Event) : Prop :=
  match e with
  | Fetch ticker period interval =>
      ticker ∈ _tickers fd
      /\ period = _lookback_period fd /\ interval = _interval fd
  | Update ticker _ => ticker ∈ _tickers fd
  | Callback _ _ => False
  end.

(** ** state.py *)

(** Python's [float] and the arithmetic [state.py] does with it.  The cache
    and the positions only carry these numbers around, so the operations are
    taken as they come: [fmul_int x n] is [x * n] for an [int] [n] and
    [fdiv x y] is [x / y], either of which Python may answer with an
    exception (an [int] too large for a float, a zero divisor). *)
Record FloatOps := mkFloatOps {
  flt : Type;
  fsub : flt -> flt -> flt;
  fmul : flt -> flt -> flt;
  fmul_int : flt -> Z -> Result flt;
  fdiv : flt -> flt -> Result flt
}.

Record Position (fo : FloatOps) := mkPosition {
  pos_ticker : string;
  pos_entry_price : flt fo;
  pos_shares : Z;
  pos_stop_loss : flt fo;
  pos_entry_date : string
}.
Arguments mkPosition {fo}.
Arguments pos_ticker {fo}.
Arguments pos_entry_price {fo}.
Arguments pos_shares {fo}.
Arguments pos_stop_loss {fo}.
Arguments pos_entry_date {fo}.

Record PortfolioState (fo : FloatOps) := mkPortfolioState {
  account_size : flt fo;
  risk_pct : flt fo;
  positions : gmap string (Position fo)
}.
Arguments mkPortfolioState {fo}.
Arguments account_size {fo}.
Arguments risk_pct {fo}.
Arguments positions {fo}.

(** The dict [close_position] returns. *)
Record Closed (fo : FloatOps) := mkClosed {
  closed_ticker : string;
  closed_entry_price : flt fo;
  closed_exit_price : flt fo;
  closed_shares : Z;
  closed_pnl : flt fo;
  closed_pnl_pct : flt fo
}.
Arguments mkClosed {fo}.
Arguments closed_ticker {fo}.
Arguments closed_entry_price {fo}.
Arguments closed_exit_price {fo}.
Arguments closed_shares {fo}.
Arguments closed_pnl {fo}.
Arguments closed_pnl_pct {fo}.

Module state.

Section WithFloats.

Context {fo : FloatOps}.

(** [PortfolioState.risk_amount] *)
Definition risk_amount (self : PortfolioState fo) : flt fo :=
  fmul fo (account_size self) (risk_pct self).

(** [PortfolioState.has_position] *)
Definition has_position (ticker : string) (self : PortfolioState fo) : bool :=
  bool_decide (is_Some (positions self !! ticker)).

Definition set_positions (m : gmap string (Position fo))
  (self : PortfolioState fo) : PortfolioState fo :=
  mkPortfolioState (account_size self) (risk_pct self) m.

(** [PortfolioState.open_position] *)
Definition open_position (ticker : string) (entry_price : flt fo)
  (shares : Z) (stop_loss : flt fo) (entry_date : string)
  : M (PortfolioState fo) (Position fo) :=
  fun self =>
    let position := mkPosition ticker entry_price shares stop_loss entry_date in
    (Ok position, set_positions (<[ticker := position]> (positions self)) self).

(** [PortfolioState.close_position] *)
Definition close_position (ticker : string) (exit_price : flt fo)
  : M (PortfolioState fo) (option (Closed fo)) :=
  fun self =>
    match positions self !! ticker with
    | None => (Ok None, self)
    | Some pos =>
        (let* pnl :=
           lift_result
             (fmul_int fo (fsub fo exit_price (pos_entry_price pos))
                       (pos_shares pos)) in
         let* ratio :=
           lift_result
             (fdiv fo (fsub fo exit_price (pos_entry_price pos))
                   (pos_entry_price pos)) in
         let* pnl_pct := lift_result (fmul_int fo ratio 100) in
         ret (Some (mkClosed ticker (pos_entry_price pos) exit_price
                             (pos_shares pos) pnl pnl_pct)))
          (set_positions (delete ticker (positions self)) self)
    end.

(** [PortfolioState.get_position] *)
Definition get_position (ticker : string) (self : PortfolioState fo)
  : option (Position fo) :=
  positions self !! ticker.

End WithFloats.

End state.

(** ** ticker_selector.py *)

Module ticker_selector.

(** One quote of the screener's answer, and the answer itself: dicts. *)
Abbreviation Quote := (gmap string string).

(** [l[:n]] *)
Definition slice_to {A} (l : list A) (n : Z) : list A :=
  if n <? 0 then firstn (Z.to_nat (Z.of_nat (length l) + n)) l
  else firstn (Z.to_nat n) l.

(** [[stock["symbol"] for stock in quotes]] *)
Fixpoint symbols (quotes : list (gmap string string)) : Result (list string) :=
  match quotes with
  | [] => Ok []
  | stock :: rest =>
      match stock !! "symbol"%string with
      | None => Raise KeyError
      | Some symbol =>
          match symbols rest with
          | Ok l => Ok (symbol :: l)
          | Raise e => Raise e
          end
      end
  end.

(** [get_top_liquid_tech_stocks(n)], given what [yf.screen] answered (the
    printing left out). *)
Definition get_top_liquid_tech_stocks
  (result : gmap string (list (gmap string string))) (n : Z)
  : Result (list string) :=
  let quotes := default [] (result !! "quotes"%string) in
  symbols (slice_to quotes n).

End ticker_selector.

(** ** More frames, sources and states for concrete runs *)

(** A source that answers every fetch with the same two daily candles, and
    one that answers every fetch with an empty frame. *)
Definition steady_source : Source :=
  mkSource (fun _ _ _ _ =>
              Ok (tests.make_candles (days 1000) [2; 1] [100; 101])).

Definition closed_market : Source := mkSource (fun _ _ _ _ => Ok []).

Definition running_two : MDFeed := feed.set_running true two_tickers.

(** A running feed that tracks [MSFT], then [AAPL], with the reading handler
    registered. *)
Definition watched_pair : MDFeed :=
  feed.set_running true
    (feed.set_handler reader (feed.new [MSFT; AAPL] (seconds 60))).

(** The calls that prime [X] and then load [AAPL]. *)
Definition prime_calls : list (Z * string * option DataFrame) :=
  [(days 10, X, Some baseline)].

Definition aapl_calls : list (Z * string * option DataFrame) :=
  [(days 10, AAPL, Some daily_baseline); (days 11, AAPL, Some daily_poll)].

(** Rational numbers standing in for floats in the runs on positions. *)
Definition rationals : FloatOps :=
  mkFloatOps Q Qminus Qmult
             (fun x n => Ok (Qmult x (inject_Z n)))
             (fun x y => Ok (Qdiv x y)).

Definition empty_portfolio : PortfolioState rationals :=
  @mkPortfolioState rationals (inject_Z 100000) (2 # 100)%Q ∅.

(** A screener answer with two quotes, the second without a symbol. *)
Definition quote_nvda : gmap string string :=
  {[ "symbol"%string := "NVDA"%string ]}.

Definition quote_nameless : gmap string string :=
  {[ "exchange"%string := "NMS"%string ]}.

Definition screened : gmap string (list (gmap string string)) :=
  {[ "quotes"%string := [quote_nvda; quote_nameless] ]}.

(** ** Lemmas on the pandas operations *)

Section PandasFacts.

Lemma position_last {A} (l : list A) (x : A) :
  pd.position (l ++ [x]) (-1) = Ok x.
Proof.
  unfold pd.position. rewrite length_app. simpl.
  replace (Z.of_nat (length l + 1) + -1) with (Z.of_nat (length l)) by lia.
  rewrite (proj2 (Z.leb_le _ _)), (proj2 (Z.ltb_lt _ _)) by lia.
  simpl. rewrite Nat2Z.id.
  rewrite nth_error_app2 by lia. now rewrite Nat.sub_diag.
Qed.

Lemma position_before_last {A} (l : list A) (x y : A) :
  pd.position (l ++ [x; y]) (-2) = Ok x.
Proof.
  unfold pd.position. rewrite length_app. simpl.
  replace (Z.of_nat (length l + 2) + -2) with (Z.of_nat (length l)) by lia.
  rewrite (proj2 (Z.leb_le _ _)), (proj2 (Z.ltb_lt _ _)) by lia.
  simpl. rewrite Nat2Z.id.
  rewrite nth_error_app2 by lia. now rewrite Nat.sub_diag.
Qed.

Lemma position_zero {A} (x : A) (l : list A) :
  pd.position (x :: l) 0 = Ok x.
Proof.
  unfold pd.position. simpl length.
  rewrite Z.ltb_irrefl, (proj2 (Z.ltb_lt _ _)) by lia.
  reflexivity.
Qed.

Lemma contains_In (k : Z) (l : list Z) :
  pd.contains k l = true <-> In k l.
Proof.
  unfold pd.contains. rewrite existsb_exists. split.
  - intros [x [Hx Hk]]. apply Z.eqb_eq in Hk. now subst.
  - intros H. exists k. split; [assumption | apply Z.eqb_refl].
Qed.

Lemma index_loc_set k v df : pd.index (pd.loc_set k v df) = pd.index df.
Proof.
  unfold pd.index, pd.loc_set. rewrite map_map. apply map_ext.
  intros r. now destruct (fst r =? k).
Qed.

Lemma loc_set_absent k v df :
  ~ In k (pd.index df) -> pd.loc_set k v df = df.
Proof.
  induction df as [| r df IH]; simpl; intros H; [reflexivity |].
  destruct (fst r =? k) eqn:E.
  - apply Z.eqb_eq in E. tauto.
  - f_equal. apply IH. tauto.
Qed.

Lemma loc_set_idem k v w df :
  pd.loc_set k v (pd.loc_set k w df) = pd.loc_set k v df.
Proof.
  induction df as [| r df IH]; simpl; [reflexivity |]. f_equal; [| exact IH].
  destruct (fst r =? k) eqn:E; simpl; now rewrite E.
Qed.

Lemma loc_set_comm k1 k2 v1 v2 df :
  k1 <> k2 ->
  pd.loc_set k1 v1 (pd.loc_set k2 v2 df)
  = pd.loc_set k2 v2 (pd.loc_set k1 v1 df).
Proof.
  intros Hne. induction df as [| r df IH]; simpl; [reflexivity |].
  f_equal; [| exact IH].
  destruct (fst r =? k2) eqn:E2, (fst r =? k1) eqn:E1; simpl;
    rewrite ?E1, ?E2; try reflexivity.
  apply Z.eqb_eq in E1, E2. congruence.
Qed.

Lemma loc_set_app k v a b :
  pd.loc_set k v (a ++ b) = pd.loc_set k v a ++ pd.loc_set k v b.
Proof. apply map_app. Qed.

End PandasFacts.

(** ** Equations of the cache operations *)

Section CacheEquations.

Lemma read_new (h : Heap) (df : DataFrame) : read (h ++ [df]) (length h) = df.
Proof.
  unfold read. rewrite lookup_app_r by lia.
  now rewrite Nat.sub_diag.
Qed.

Lemma read_old (h : Heap) (df : DataFrame) (l : nat) :
  (l < length h)%nat -> read (h ++ [df]) l = read h l.
Proof. intros H. unfold read. now rewrite lookup_app_l. Qed.

Lemma read_nonempty_lt (h : Heap) (l : nat) :
  read h l <> [] -> (l < length h)%nat.
Proof.
  unfold read. intros H. destruct (h !! l) eqn:E.
  - eapply lookup_lt_Some; eassumption.
  - now contradiction H.
Qed.

Lemma read_insert (h : Heap) (l : nat) (df : DataFrame) :
  (l < length h)%nat -> read (<[l := df]> h) l = df.
Proof. intros H. unfold read. now rewrite list_lookup_insert_eq. Qed.

Lemma read_insert_ne (h : Heap) (l l' : nat) (df : DataFrame) :
  l <> l' -> read (<[l := df]> h) l' = read h l'.
Proof. intros H. unfold read. now rewrite list_lookup_insert_ne. Qed.

Lemma contains_read_lt (h : Heap) (l : nat) (k : Z) :
  pd.contains k (pd.index (read h l)) = true -> (l < length h)%nat.
Proof.
  intros H. apply read_nonempty_lt. intros E. rewrite E in H. discriminate.
Qed.

Lemma upsert_eq (r : Row) (l : nat) (s : Store) :
  upsert [r] l s =
  if pd.contains (fst r) (pd.index (read (heap s) l))
  then (Ok l,
        mkStore (self s)
          (<[l := pd.loc_set (fst r) (snd r) (read (heap s) l)]> (heap s)))
  else (Ok (length (heap s)),
        mkStore (self s) (heap s ++ [read (heap s) l ++ [r]])).
Proof.
  unfold upsert, bind, lift_result, load, modify, new, ret, pd.index_at, pd.iloc.
  simpl pd.index. rewrite !position_zero.
  now destruct (pd.contains (fst r) (pd.index (read (heap s) l))).
Qed.

(** [upsert] leaves the cache's dict alone and binds [existing] to an object
    that holds [upsert_rows]. *)
Lemma upsert_rows_spec (r : Row) (l : nat) (s : Store) :
  exists l' h',
    upsert [r] l s = (Ok l', mkStore (self s) h')
    /\ read h' l' = upsert_rows r (read (heap s) l)
    /\ (length (heap s) <= length h')%nat.
Proof.
  rewrite upsert_eq. unfold upsert_rows.
  destruct (pd.contains _ _) eqn:E.
  - eexists _, _. split; [reflexivity |]. split.
    + apply read_insert. eapply contains_read_lt; eassumption.
    + now rewrite length_insert.
  - eexists _, _. split; [reflexivity |]. split.
    + apply read_new.
    + rewrite length_app. lia.
Qed.

Lemma _evict_old_eq (now : Z) (ticker : string) (s : Store) :
  _evict_old now ticker s =
  match _data (self s) !! ticker with
  | None => (Ok tt, s)
  | Some l =>
      if pd.empty (read (heap s) l) then (Ok tt, s)
      else (Ok tt,
            mkStore
              (mkKlineCache (<[ticker := length (heap s)]> (_data (self s)))
                            (_max_period (self s)))
              (heap s ++ [pd.mask_ge (now - _max_period (self s))
                                     (read (heap s) l)]))
  end.
Proof.
  unfold _evict_old, bind, get_item, load, max_period, new, set_item, ret.
  simpl. destruct (_data (self s) !! ticker); [| reflexivity].
  now destruct (pd.empty (read (heap s) n)).
Qed.

(** After [self._data[ticker] = l] for a fresh object [l] holding [rows],
    [_evict_old] leaves the cache holding [rows] masked by the cutoff. *)
Lemma evict_after_store (now : Z) (ticker : string) (c : KlineCache)
  (h : Heap) (rows : DataFrame) :
  exists c' h',
    _evict_old now ticker
      (mkStore (mkKlineCache (<[ticker := length h]> (_data c)) (_max_period c))
               (h ++ [rows]))
    = (Ok tt, mkStore c' h')
    /\ _max_period c' = _max_period c
    /\ stored (mkStore c' h') ticker
       = Some (pd.mask_ge (now - _max_period c) rows)
    /\ (forall t, t <> ticker -> _data c' !! t = _data c !! t)
    /\ (forall l, (l < length h)%nat -> read h' l = read h l)
    /\ live (mkStore c' h') ticker.
Proof.
  rewrite _evict_old_eq. simpl. rewrite lookup_insert_eq, read_new.
  destruct rows as [| r rows]; simpl.
  - eexists _, _. split; [reflexivity |]. unfold stored, live. simpl.
    rewrite lookup_insert_eq. simpl. rewrite read_new.
    repeat split; try reflexivity.
    + intros t Ht. now rewrite lookup_insert_ne.
    + intros l Hl. now apply read_old.
    + exists (length h). split; [reflexivity |]. rewrite length_app. simpl. lia.
  - eexists _, _. split; [reflexivity |]. unfold stored, live. simpl.
    rewrite lookup_insert_eq. simpl.
    replace (length h + 1)%nat with (length (h ++ [r :: rows]))
      by (rewrite length_app; reflexivity).
    rewrite length_app. simpl.
    replace (length h + 1)%nat with (length (h ++ [r :: rows]))
      by (rewrite length_app; reflexivity).
    rewrite read_new.
    repeat split; try reflexivity.
    + intros t Ht. now rewrite !lookup_insert_ne.
    + intros l Hl. rewrite !read_old; try reflexivity; try assumption.
      rewrite length_app. simpl. lia.
    + eexists. split; [reflexivity |]. rewrite !length_app. simpl. lia.
Qed.

End CacheEquations.

(** ** [update] computes [update_rows] *)

Section UpdateStored.

Lemma rev_two {A} (l : list A) (o c : A) (rest : list A) :
  rev l = o :: c :: rest -> l = rev rest ++ [c; o].
Proof.
  intros H. rewrite <- (rev_involutive l), H. simpl.
  now rewrite <- app_assoc.
Qed.

Lemma rev_one {A} (l : list A) (o : A) : rev l = [o] -> l = [o].
Proof. intros H. now rewrite <- (rev_involutive l), H. Qed.

(** The last four statements of [update]: sort, store, evict, return. *)
Lemma update_tail (now : Z) (ticker : string) (c : KlineCache) (h : Heap)
  (existing : nat) :
  exists c' h',
    (let* rows := load existing in
     let* sorted := new (pd.sort_index rows) in
     let* _ := set_item ticker sorted in
     let* _ := _evict_old now ticker in
     ret true) (mkStore c h)
    = (Ok true, mkStore c' h')
    /\ _max_period c' = _max_period c
    /\ stored (mkStore c' h') ticker
       = Some (pd.mask_ge (now - _max_period c)
                          (pd.sort_index (read h existing)))
    /\ (forall t, t <> ticker -> _data c' !! t = _data c !! t)
    /\ (forall l, (l < length h)%nat -> read h' l = read h l)
    /\ live (mkStore c' h') ticker.
Proof.
  destruct (evict_after_store now ticker c h (pd.sort_index (read h existing)))
    as (c' & h' & E & Hp & Hs & Hd & Hr & Hl).
  exists c', h'. unfold bind, load, new, set_item, ret. simpl.
  rewrite E. auto 10.
Qed.

(** The branch on [n_candles], for a non-empty batch: [existing] ends up
    bound to an object holding the batch's last one or two rows upserted
    into the old rows. *)
Lemma update_branch (new_candles : DataFrame) (l : nat) (c : KlineCache)
  (h : Heap) :
  new_candles <> [] ->
  exists l' h',
    (if (2 <=? length new_candles)%nat then
       let* closed_candle := lift_result (pd.iloc_frame new_candles (-2)) in
       let* open_candle := lift_result (pd.iloc_frame new_candles (-1)) in
       let* existing := upsert closed_candle l in
       upsert open_candle existing
     else if (length new_candles =? 1)%nat then
       let* open_candle := lift_result (pd.iloc_frame new_candles (-1)) in
       upsert open_candle l
     else ret l) (mkStore c h)
    = (Ok l', mkStore c h')
    /\ pd.sort_index (read h' l') = merge_rows (read h l) new_candles.
Proof.
  intros Hne. unfold merge_rows.
  destruct (rev new_candles) as [| o [| cl rest]] eqn:Erev.
  - apply (f_equal (@rev _)) in Erev. rewrite rev_involutive in Erev.
    simpl in Erev. congruence.
  - apply rev_one in Erev. subst new_candles.
    cbn [length Nat.leb Nat.eqb]. unfold bind, lift_result, pd.iloc_frame.
    rewrite (position_last [] o : pd.position [o] (-1) = Ok o).
    destruct (upsert_rows_spec o l (mkStore c h)) as (l1 & h1 & E1 & R1 & _).
    simpl in E1, R1. rewrite E1. exists l1, h1. now rewrite R1.
  - apply rev_two in Erev. subst new_candles.
    replace ((2 <=? length (rev rest ++ [cl; o]))%nat) with true
      by (symmetry; apply Nat.leb_le; rewrite length_app; simpl; lia).
    unfold bind, lift_result, pd.iloc_frame.
    rewrite position_before_last.
    replace (rev rest ++ [cl; o]) with ((rev rest ++ [cl]) ++ [o])
      by (now rewrite <- app_assoc).
    rewrite position_last.
    destruct (upsert_rows_spec cl l (mkStore c h)) as (l1 & h1 & E1 & R1 & _).
    simpl in E1, R1. rewrite E1.
    destruct (upsert_rows_spec o l1 (mkStore c h1)) as (l2 & h2 & E2 & R2 & _).
    simpl in E2, R2. rewrite E2. exists l2, h2. now rewrite R2, R1.
Qed.

Theorem update_stored (now : Z) (ticker : string) (new_candles : DataFrame)
  (s : Store) :
  new_candles <> [] ->
  exists s',
    update now ticker (Some new_candles) s = (Ok true, s')
    /\ _max_period (self s') = _max_period (self s)
    /\ stored s' ticker
       = Some (update_rows now (_max_period (self s)) (stored s ticker)
                           new_candles)
    /\ (forall t, t <> ticker ->
          _data (self s') !! t = _data (self s) !! t)
    /\ live s' ticker.
Proof.
  intros Hne. unfold update.
  replace (pd.empty new_candles) with false
    by (destruct new_candles; [congruence | reflexivity]).
  unfold bind at 1. unfold get_item at 1. unfold stored, update_rows.
  destruct s as [c h]. cbn beta iota delta [self heap fst snd].
  destruct (_data c !! ticker) as [l |] eqn:El;
    cbn beta iota delta [fmap option_fmap option_map pre_evict].
  - (* the ticker has a history *)
    unfold bind at 1.
    destruct (update_branch new_candles l c h Hne) as (l' & h' & E & R).
    rewrite E.
    destruct (update_tail now ticker c h' l')
      as (c' & h'' & E' & Hp & Hs & Hd & _ & Hl).
    rewrite E'. exists (mkStore c' h''). rewrite <- R. auto 10.
  - (* first load *)
    unfold bind, new, set_item, ret. simpl.
    destruct (evict_after_store now ticker c h new_candles)
      as (c' & h' & E & Hp & Hs & Hd & _ & Hl).
    rewrite E. exists (mkStore c' h'). auto 10.
Qed.

End UpdateStored.

(** ** Sorting, masking and upserting on rows *)

Section RowFacts.

Implicit Types (r x : Row) (df : DataFrame) (k cutoff : Z).

Lemma index_app df1 df2 : pd.index (df1 ++ df2) = pd.index df1 ++ pd.index df2.
Proof. apply map_app. Qed.

Lemma insert_row_perm r df : Permutation (pd.insert_row r df) (r :: df).
Proof.
  induction df as [| x df IH]; simpl; [reflexivity |].
  destruct (fst r <=? fst x); [reflexivity |].
  rewrite IH. apply perm_swap.
Qed.

Lemma sort_index_perm df : Permutation (pd.sort_index df) df.
Proof.
  induction df as [| x df IH]; simpl; [reflexivity |].
  rewrite insert_row_perm. now constructor.
Qed.

Lemma sort_index_In r df : In r (pd.sort_index df) <-> In r df.
Proof.
  split; apply Permutation_in;
    [apply sort_index_perm | symmetry; apply sort_index_perm].
Qed.

Lemma index_sort_index_perm df :
  Permutation (pd.index (pd.sort_index df)) (pd.index df).
Proof. apply Permutation_map, sort_index_perm. Qed.

Lemma HdRel_insert_row x r df :
  fst x <= fst r -> HdRel Z.le (fst x) (pd.index df) ->
  HdRel Z.le (fst x) (pd.index (pd.insert_row r df)).
Proof.
  intros Hxr Hd. destruct df as [| y df]; simpl.
  - now constructor.
  - destruct (fst r <=? fst y); simpl; constructor; [assumption |].
    now inversion Hd.
Qed.

Lemma insert_row_monotonic r df :
  monotonic df -> monotonic (pd.insert_row r df).
Proof.
  unfold monotonic. induction df as [| x df IH]; simpl; intros Hs.
  - repeat constructor.
  - destruct (fst r <=? fst x) eqn:E; simpl.
    + constructor; [exact Hs |]. constructor. now apply Z.leb_le.
    + inversion Hs as [| ? ? Hs' Hd]; subst. constructor.
      * now apply IH.
      * apply HdRel_insert_row; [| assumption].
        apply Z.leb_gt in E. lia.
Qed.

Lemma sort_index_monotonic df : monotonic (pd.sort_index df).
Proof.
  induction df as [| x df IH]; simpl.
  - constructor.
  - now apply insert_row_monotonic.
Qed.

(** A frame whose index is already monotonic is returned as it is. *)
Lemma insert_row_head r df :
  HdRel Z.le (fst r) (pd.index df) -> pd.insert_row r df = r :: df.
Proof.
  destruct df as [| x df]; simpl; [reflexivity |].
  intros Hd. inversion Hd; subst.
  now rewrite (proj2 (Z.leb_le _ _)).
Qed.

Lemma sort_index_sorted_id df : monotonic df -> pd.sort_index df = df.
Proof.
  unfold monotonic. induction df as [| x df IH]; simpl; intros Hs.
  - reflexivity.
  - inversion Hs; subst. rewrite IH by assumption.
    now apply insert_row_head.
Qed.

Lemma sort_index_idem df : pd.sort_index (pd.sort_index df) = pd.sort_index df.
Proof. apply sort_index_sorted_id, sort_index_monotonic. Qed.

(** Strictly ascending is monotonic without repeated labels. *)
Lemma monotonic_NoDup_ascending df :
  monotonic df -> NoDup (pd.index df) -> ascending df.
Proof.
  unfold monotonic, ascending.
  induction (pd.index df) as [| x l IH]; intros Hs Hn.
  - constructor.
  - inversion Hs as [| ? ? Hs' Hd]; subst.
    inversion Hn as [| ? ? Hx Hn']; subst.
    constructor; [now apply IH |].
    destruct l as [| y l]; constructor.
    inversion Hd; subst.
    assert (x <> y) by (intros ->; apply Hx; now left). lia.
Qed.

Lemma ascending_monotonic df : ascending df -> monotonic df.
Proof.
  unfold monotonic, ascending.
  induction (pd.index df) as [| x l IH]; intros Hs; [constructor |].
  inversion Hs as [| ? ? Hs' Hd]; subst. constructor; [now apply IH |].
  destruct Hd; constructor. lia.
Qed.

Lemma ascending_NoDup df : ascending df -> NoDup (pd.index df).
Proof.
  unfold ascending. intros Hs.
  apply Sorted_StronglySorted in Hs; [| intros x y z; apply Z.lt_trans].
  induction Hs as [| x l Hs IH Hall]; constructor; [| assumption].
  intros Hin. rewrite Forall_forall in Hall. specialize (Hall x Hin). lia.
Qed.

End RowFacts.

Section MaskFacts.

Implicit Types (r x : Row) (df : DataFrame) (k cutoff : Z).

Lemma mask_ge_In cutoff r df :
  In r (pd.mask_ge cutoff df) <-> In r df /\ cutoff <= fst r.
Proof. unfold pd.mask_ge. rewrite filter_In, Z.leb_le. reflexivity. Qed.

Lemma mask_ge_Forall cutoff df :
  Forall (fun r => cutoff <= fst r) (pd.mask_ge cutoff df).
Proof. apply List.Forall_forall. intros r Hr. now apply mask_ge_In in Hr. Qed.

Lemma mask_ge_all cutoff df :
  Forall (fun r => cutoff <= fst r) df -> pd.mask_ge cutoff df = df.
Proof.
  induction 1 as [| r df Hr _ IH]; simpl; [reflexivity |].
  rewrite (proj2 (Z.leb_le _ _)) by assumption. now f_equal.
Qed.

Lemma mask_ge_app cutoff df1 df2 :
  pd.mask_ge cutoff (df1 ++ df2)
  = pd.mask_ge cutoff df1 ++ pd.mask_ge cutoff df2.
Proof. apply List.filter_app. Qed.

Lemma index_mask_ge cutoff df :
  pd.index (pd.mask_ge cutoff df)
  = List.filter (fun k => cutoff <=? k) (pd.index df).
Proof.
  induction df as [| r df IH]; simpl; [reflexivity |].
  destruct (cutoff <=? fst r); simpl; now rewrite IH.
Qed.

Lemma HdRel_filter (R : Z -> Z -> Prop) (p : Z -> bool) (a : Z) (l : list Z) :
  (forall u v w : Z, R u v -> R v w -> R u w) ->
  Sorted R l -> HdRel R a l -> HdRel R a (List.filter p l).
Proof.
  intros Htr. induction 1 as [| x l Hs IH Hd]; intros Ha; simpl.
  - constructor.
  - inversion Ha; subst. destruct (p x).
    + now constructor.
    + apply IH. destruct Hd; constructor. eauto.
Qed.

Lemma Sorted_filter (R : Z -> Z -> Prop) (p : Z -> bool) (l : list Z) :
  (forall u v w : Z, R u v -> R v w -> R u w) ->
  Sorted R l -> Sorted R (List.filter p l).
Proof.
  intros Htr. induction 1 as [| x l Hs IH Hd]; simpl; [constructor |].
  destruct (p x); [| assumption].
  constructor; [assumption |]. now apply HdRel_filter.
Qed.

Lemma mask_ge_monotonic cutoff df :
  monotonic df -> monotonic (pd.mask_ge cutoff df).
Proof.
  unfold monotonic. rewrite index_mask_ge.
  apply Sorted_filter. intros x y z. apply Z.le_trans.
Qed.

Lemma mask_ge_ascending cutoff df :
  ascending df -> ascending (pd.mask_ge cutoff df).
Proof.
  unfold ascending. rewrite index_mask_ge.
  apply Sorted_filter. intros x y z. apply Z.lt_trans.
Qed.

Lemma mask_ge_loc_set cutoff k v df :
  pd.mask_ge cutoff (pd.loc_set k v df)
  = pd.loc_set k v (pd.mask_ge cutoff df).
Proof.
  induction df as [| r df IH]; simpl; [reflexivity |].
  destruct (fst r =? k) eqn:E; simpl;
    destruct (cutoff <=? fst r); simpl; rewrite ?E, IH; reflexivity.
Qed.

Lemma mask_ge_insert_row cutoff r df :
  pd.mask_ge cutoff (pd.insert_row r df)
  = if cutoff <=? fst r then pd.insert_row r (pd.mask_ge cutoff df)
    else pd.mask_ge cutoff df.
Proof.
  induction df as [| x df IH]; simpl.
  - now destruct (cutoff <=? fst r).
  - destruct (fst r <=? fst x) eqn:Erx; simpl.
    + destruct (cutoff <=? fst r) eqn:Ecr.
      * assert (Hcx : (cutoff <=? fst x) = true).
        { apply Z.leb_le. apply Z.leb_le in Erx, Ecr. lia. }
        rewrite Hcx. simpl. now rewrite Erx.
      * reflexivity.
    + destruct (cutoff <=? fst x) eqn:Ecx; simpl; rewrite IH.
      * destruct (cutoff <=? fst r); simpl; [now rewrite Erx | reflexivity].
      * reflexivity.
Qed.

(** Eviction commutes with sorting. *)
Lemma mask_ge_sort_index cutoff df :
  pd.mask_ge cutoff (pd.sort_index df)
  = pd.sort_index (pd.mask_ge cutoff df).
Proof.
  induction df as [| r df IH]; simpl; [reflexivity |].
  rewrite mask_ge_insert_row, IH.
  now destruct (cutoff <=? fst r).
Qed.

Lemma contains_mask_ge cutoff k df :
  cutoff <= k ->
  pd.contains k (pd.index (pd.mask_ge cutoff df))
  = pd.contains k (pd.index df).
Proof.
  intros Hk. induction df as [| r df IH]; simpl; [reflexivity |].
  destruct (cutoff <=? fst r) eqn:E; simpl.
  - now rewrite IH.
  - rewrite IH. apply Z.leb_gt in E.
    now rewrite (proj2 (Z.eqb_neq k (fst r))) by lia.
Qed.

Lemma index_mask_ge_absent cutoff k df :
  k < cutoff -> ~ In k (pd.index (pd.mask_ge cutoff df)).
Proof.
  intros Hk Hin. unfold pd.index in Hin. apply in_map_iff in Hin.
  destruct Hin as (r & <- & Hr). apply mask_ge_In in Hr. lia.
Qed.

(** Eviction after an upsert is an upsert after eviction, unless the
    upserted row is itself evicted. *)
Lemma mask_ge_upsert_rows cutoff r df :
  pd.mask_ge cutoff (upsert_rows r df)
  = if cutoff <=? fst r then upsert_rows r (pd.mask_ge cutoff df)
    else pd.mask_ge cutoff df.
Proof.
  unfold upsert_rows. destruct (cutoff <=? fst r) eqn:E.
  - apply Z.leb_le in E. rewrite contains_mask_ge by assumption.
    destruct (pd.contains _ _).
    + apply mask_ge_loc_set.
    + rewrite mask_ge_app. simpl.
      now rewrite (proj2 (Z.leb_le _ _)) by assumption.
  - apply Z.leb_gt in E. destruct (pd.contains _ _).
    + rewrite mask_ge_loc_set. apply loc_set_absent.
      now apply index_mask_ge_absent.
    + rewrite mask_ge_app. simpl.
      rewrite (proj2 (Z.leb_gt _ _)) by assumption. apply app_nil_r.
Qed.

End MaskFacts.

Section UpsertFacts.

Implicit Types (r x : Row) (df : DataFrame) (k : Z).

Lemma upsert_rows_index_In r df : In (fst r) (pd.index (upsert_rows r df)).
Proof.
  unfold upsert_rows. destruct (pd.contains _ _) eqn:E.
  - rewrite index_loc_set. now apply contains_In.
  - rewrite index_app. apply in_or_app. right. now left.
Qed.

Lemma upsert_rows_index_mono r df k :
  In k (pd.index df) -> In k (pd.index (upsert_rows r df)).
Proof.
  unfold upsert_rows. destruct (pd.contains _ _).
  - now rewrite index_loc_set.
  - rewrite index_app. intros H. apply in_or_app. now left.
Qed.

Lemma upsert_rows_NoDup r df :
  NoDup (pd.index df) -> NoDup (pd.index (upsert_rows r df)).
Proof.
  unfold upsert_rows. destruct (pd.contains _ _) eqn:E; intros Hn.
  - now rewrite index_loc_set.
  - rewrite index_app. simpl. rewrite <- Permutation_cons_append.
    constructor; [| assumption].
    intros Hin. apply list_elem_of_In, contains_In in Hin. congruence.
Qed.

Lemma merge_rows_monotonic df new_candles :
  monotonic (merge_rows df new_candles).
Proof.
  unfold merge_rows. destruct (rev new_candles) as [| o [| c rest]];
    apply sort_index_monotonic.
Qed.

Lemma merge_rows_NoDup df new_candles :
  NoDup (pd.index df) -> NoDup (pd.index (merge_rows df new_candles)).
Proof.
  intros Hn. unfold merge_rows.
  destruct (rev new_candles) as [| o [| c rest]];
    rewrite index_sort_index_perm; auto using upsert_rows_NoDup.
Qed.

End UpsertFacts.

(** ** Properties of [KlineCache.update] *)

Section UpdateProperties.

Implicit Types (now : Z) (ticker : string) (s : Store).

(** A first load keeps the batch as it is, minus the evicted rows, and
    returns [True]. *)
Lemma first_load now ticker (new_candles : DataFrame) s :
  new_candles <> [] ->
  _data (self s) !! ticker = None ->
  exists s',
    update now ticker (Some new_candles) s = (Ok true, s')
    /\ stored s' ticker
       = Some (pd.mask_ge (now - _max_period (self s)) new_candles).
Proof.
  intros Hne Hnone.
  destruct (update_stored now ticker new_candles s Hne)
    as (s' & E & _ & Hs & _).
  exists s'. split; [exact E |].
  rewrite Hs. unfold stored, update_rows. now rewrite Hnone.
Qed.

(** A later load merges, sorts and evicts, and returns [True]. *)
Lemma later_load now ticker (new_candles old : DataFrame) s :
  new_candles <> [] ->
  stored s ticker = Some old ->
  exists s',
    update now ticker (Some new_candles) s = (Ok true, s')
    /\ _max_period (self s') = _max_period (self s)
    /\ stored s' ticker
       = Some (pd.mask_ge (now - _max_period (self s))
                          (merge_rows old new_candles)).
Proof.
  intros Hne Hold.
  destruct (update_stored now ticker new_candles s Hne)
    as (s' & E & Hp & Hs & _).
  exists s'. repeat split; [exact E | exact Hp |].
  rewrite Hs, Hold. reflexivity.
Qed.

(** [_evict_old] on its own: the stored rows are masked by the cutoff. *)
Lemma _evict_old_stored now ticker s (rows : DataFrame) :
  stored s ticker = Some rows ->
  exists s',
    _evict_old now ticker s = (Ok tt, s')
    /\ stored s' ticker
       = Some (pd.mask_ge (now - _max_period (self s)) rows).
Proof.
  unfold stored. rewrite _evict_old_eq.
  destruct (_data (self s) !! ticker) as [l |] eqn:El; simpl; [| discriminate].
  intros [= Hrows]. rewrite Hrows.
  destruct rows as [| r rows]; simpl.
  - exists s. rewrite El. simpl. now rewrite Hrows.
  - eexists. split; [reflexivity |]. simpl.
    rewrite lookup_insert_eq. simpl. now rewrite read_new.
Qed.

Lemma stored_None s ticker :
  stored s ticker = None <-> _data (self s) !! ticker = None.
Proof.
  unfold stored. destruct (_data (self s) !! ticker); simpl; split; congruence.
Qed.

End UpdateProperties.

(** ** Upserting the same rows again *)

Section Repoll.

Implicit Types (r c o x : Row) (df : DataFrame) (k : Z).

Lemma upsert_rows_present r df :
  In (fst r) (pd.index df) ->
  upsert_rows r df = pd.loc_set (fst r) (snd r) df.
Proof.
  intros H. unfold upsert_rows.
  now rewrite (proj2 (contains_In _ _) H).
Qed.

Lemma loc_set_upsert_same r df :
  pd.loc_set (fst r) (snd r) (upsert_rows r df) = upsert_rows r df.
Proof.
  unfold upsert_rows. destruct (pd.contains _ _) eqn:E.
  - apply loc_set_idem.
  - rewrite loc_set_app. rewrite loc_set_absent.
    + simpl. rewrite Z.eqb_refl. now destruct r.
    + intros Hin. apply contains_In in Hin. congruence.
Qed.

Lemma loc_set_upsert_comm k v r df :
  k <> fst r ->
  pd.loc_set k v (upsert_rows r df) = upsert_rows r (pd.loc_set k v df).
Proof.
  intros Hne. unfold upsert_rows. rewrite index_loc_set.
  destruct (pd.contains _ _).
  - apply loc_set_comm. congruence.
  - rewrite loc_set_app. simpl.
    now rewrite (proj2 (Z.eqb_neq (fst r) k)) by congruence.
Qed.

Lemma loc_set_insert_row k v r df :
  pd.loc_set k v (pd.insert_row r df)
  = pd.insert_row (if fst r =? k then (fst r, v) else r) (pd.loc_set k v df).
Proof.
  assert (Hfst : fst (if fst r =? k then (fst r, v) else r) = fst r)
    by now destruct (fst r =? k).
  induction df as [| x df IH]; simpl; [reflexivity |].
  rewrite Hfst.
  replace (fst (if fst x =? k then (fst x, v) else x)) with (fst x)
    by now destruct (fst x =? k).
  destruct (fst r <=? fst x); simpl; [reflexivity |].
  now rewrite IH.
Qed.

(** An in-place assignment does not move rows, so it commutes with sorting. *)
Lemma loc_set_sort_index k v df :
  pd.loc_set k v (pd.sort_index df) = pd.sort_index (pd.loc_set k v df).
Proof.
  induction df as [| r df IH]; simpl; [reflexivity |].
  now rewrite loc_set_insert_row, IH.
Qed.

Lemma index_sort_index_In k df :
  In k (pd.index (pd.sort_index df)) <-> In k (pd.index df).
Proof.
  split; apply Permutation_in;
    [apply index_sort_index_perm | symmetry; apply index_sort_index_perm].
Qed.

(** Upserting a row whose label is present into a sorted frame. *)
Lemma upsert_sorted_present r df :
  In (fst r) (pd.index df) ->
  upsert_rows r (pd.sort_index df)
  = pd.sort_index (pd.loc_set (fst r) (snd r) df).
Proof.
  intros H. rewrite upsert_rows_present by now apply index_sort_index_In.
  apply loc_set_sort_index.
Qed.

(** The same two rows assigned again change nothing. *)
Lemma loc_set_twice_upserted c o df :
  pd.loc_set (fst o) (snd o)
    (pd.loc_set (fst c) (snd c) (upsert_rows o (upsert_rows c df)))
  = upsert_rows o (upsert_rows c df).
Proof.
  destruct (Z.eq_dec (fst c) (fst o)) as [E | N].
  - rewrite E, loc_set_idem. apply loc_set_upsert_same.
  - rewrite loc_set_upsert_comm by assumption.
    rewrite loc_set_upsert_same. now rewrite loc_set_upsert_same.
Qed.

Lemma mask_ge_merge_two cutoff c o df :
  pd.mask_ge cutoff (merge_rows df [c; o])
  = pd.sort_index
      (upsert_if (cutoff <=? fst o) o
         (upsert_if (cutoff <=? fst c) c (pd.mask_ge cutoff df))).
Proof.
  unfold merge_rows, upsert_if. simpl rev. cbn iota.
  rewrite mask_ge_sort_index, !mask_ge_upsert_rows.
  destruct (cutoff <=? fst o), (cutoff <=? fst c); reflexivity.
Qed.

(** The rows left by one poll are a fixed point of the same poll, as long
    as the later cutoff evicts none of them. *)
Lemma repoll_rows cutoff1 cutoff2 c o df :
  cutoff1 <= cutoff2 ->
  let rows := pd.mask_ge cutoff1 (merge_rows df [c; o]) in
  Forall (fun r => cutoff2 <= fst r) rows ->
  pd.mask_ge cutoff2 (merge_rows rows [c; o]) = rows.
Proof.
  intros Hle rows Hall.
  rewrite mask_ge_merge_two, (mask_ge_all _ _ Hall).
  subst rows. rewrite mask_ge_merge_two.
  set (Y := pd.mask_ge cutoff1 df).
  destruct (cutoff2 <=? fst c) eqn:E2c, (cutoff2 <=? fst o) eqn:E2o;
    unfold upsert_if at 1 2.
  - apply Z.leb_le in E2c, E2o.
    rewrite !(proj2 (Z.leb_le cutoff1 _)) by lia. unfold upsert_if.
    rewrite upsert_sorted_present
      by (apply upsert_rows_index_mono, upsert_rows_index_In).
    rewrite upsert_sorted_present
      by (rewrite index_loc_set; apply upsert_rows_index_In).
    rewrite loc_set_twice_upserted. apply sort_index_idem.
  - apply Z.leb_le in E2c. apply Z.leb_gt in E2o.
    rewrite (proj2 (Z.leb_le cutoff1 (fst c))) by lia.
    unfold upsert_if at 2.
    assert (Hin : In (fst c)
              (pd.index (upsert_if (cutoff1 <=? fst o) o (upsert_rows c Y)))).
    { unfold upsert_if. destruct (cutoff1 <=? fst o).
      - apply upsert_rows_index_mono, upsert_rows_index_In.
      - apply upsert_rows_index_In. }
    rewrite upsert_sorted_present by exact Hin.
    rewrite sort_index_idem. f_equal.
    unfold upsert_if. destruct (cutoff1 <=? fst o).
    + rewrite loc_set_upsert_comm by lia. now rewrite loc_set_upsert_same.
    + apply loc_set_upsert_same.
  - apply Z.leb_le in E2o.
    rewrite (proj2 (Z.leb_le cutoff1 (fst o))) by lia.
    unfold upsert_if at 1.
    rewrite upsert_sorted_present by apply upsert_rows_index_In.
    rewrite sort_index_idem. f_equal. apply loc_set_upsert_same.
  - apply sort_index_idem.
Qed.

End Repoll.

(** ** The claims on [KlineCache.update] *)

Section CacheClaims.

Implicit Types (now : Z) (ticker : string) (s : Store).

(** C1 (as amended).  Take an [update] call with a non-empty batch, for a
    symbol that has no history yet or whose history has no duplicate
    timestamps.  The call returns, and after it every record stored for the
    symbol has a timestamp of at least [now] minus the retention window.  If
    the symbol already had a history, the stored history is sorted ascending
    by timestamp and has no duplicate timestamps.  If the call is the
    first-ever batch and the batch is itself ascending without duplicates,
    so is the stored history. *)
Theorem update_history_invariant now ticker (new_candles : DataFrame) s :
  new_candles <> [] ->
  (forall old, stored s ticker = Some old -> NoDup (pd.index old)) ->
  exists s' rows,
    update now ticker (Some new_candles) s = (Ok true, s')
    /\ stored s' ticker = Some rows
    /\ Forall (fun r => now - _max_period (self s) <= fst r) rows
    /\ (is_Some (stored s ticker) -> ascending rows)
    /\ (stored s ticker = None -> ascending new_candles -> ascending rows).
Proof.
  intros Hne Hnd.
  destruct (update_stored now ticker new_candles s Hne)
    as (s' & E & _ & Hs & _).
  exists s', (update_rows now (_max_period (self s)) (stored s ticker)
                          new_candles).
  split; [exact E |]. split; [exact Hs |]. unfold update_rows.
  split; [apply mask_ge_Forall |]. split.
  - intros [old Hold]. rewrite Hold. simpl.
    apply mask_ge_ascending, monotonic_NoDup_ascending.
    + apply merge_rows_monotonic.
    + apply merge_rows_NoDup. now apply Hnd.
  - intros Hnone Hasc. rewrite Hnone. simpl. now apply mask_ge_ascending.
Qed.

(** C2 (what the code does).  For a symbol with no prior history and a
    non-empty batch, [update] stores the batch, minus the evicted records,
    and returns [True], not [False]. *)
Theorem first_load_returns_true now ticker (new_candles : DataFrame) s :
  new_candles <> [] ->
  stored s ticker = None ->
  exists s',
    update now ticker (Some new_candles) s = (Ok true, s')
    /\ stored s' ticker
       = Some (pd.mask_ge (now - _max_period (self s)) new_candles).
Proof.
  intros Hne Hnone. apply first_load; [exact Hne |]. now apply stored_None.
Qed.


(** C6.  [update] with an empty batch returns [False], raises nothing and
    leaves the cache and every stored history as they were. *)
Theorem update_empty_noop now ticker s :
  update now ticker (Some []) s = (Ok false, s).
Proof. reflexivity. Qed.

(** C10.  [update] with [None] for the batch behaves like an empty batch:
    it returns [False], raises nothing and leaves every stored history as it
    was. *)
Theorem update_None_noop now ticker s :
  update now ticker None s = (Ok false, s)
  /\ update now ticker None s = update now ticker (Some []) s.
Proof. split; reflexivity. Qed.

End CacheClaims.

Section PollClaims.

Implicit Types (now : Z) (ticker : string) (s : Store).

(** C3 (as amended).  For a symbol primed with the baseline history
    [t1, t2], with [t1 < t2 < t3] and [t1] still inside the retention
    window when the poll runs, an update with the batch [t2, t3] returns
    [True] and leaves exactly the three records [t1, t2, t3] in ascending
    order, [t2] carrying the values of the newer batch. *)
Theorem close_detection now ticker s (t1 t2 t3 : Z) (v1 v2 v2' v3 : Candle) :
  stored s ticker = Some [(t1, v1); (t2, v2)] ->
  t1 < t2 -> t2 < t3 ->
  now - _max_period (self s) <= t1 ->
  exists s',
    update now ticker (Some [(t2, v2'); (t3, v3)]) s = (Ok true, s')
    /\ stored s' ticker = Some [(t1, v1); (t2, v2'); (t3, v3)].
Proof.
  intros Hold H12 H23 Hret.
  destruct (later_load now ticker [(t2, v2'); (t3, v3)] _ s
              ltac:(discriminate) Hold) as (s' & E & _ & Hs).
  exists s'. split; [exact E |]. rewrite Hs. f_equal.
  unfold merge_rows, upsert_rows, pd.contains, pd.loc_set, pd.mask_ge.
  simpl.
  rewrite (proj2 (Z.eqb_neq t2 t1)) by lia. rewrite Z.eqb_refl. simpl.
  rewrite (proj2 (Z.eqb_neq t1 t2)) by lia. rewrite ?Z.eqb_refl. simpl.
  rewrite (proj2 (Z.eqb_neq t3 t1)), (proj2 (Z.eqb_neq t3 t2)) by lia. simpl.
  rewrite (proj2 (Z.leb_le t2 t3)) by lia.
  cbn [pd.insert_row fst].
  rewrite (proj2 (Z.leb_le t1 t2)) by lia.
  simpl. rewrite !(proj2 (Z.leb_le (now - _max_period (self s)) _)) by lia.
  reflexivity.
Qed.

(** C4 (as amended).  For a symbol with an existing history that has no
    duplicate timestamps, two updates in a row with the same two-record
    batch both return [True], and the second leaves the stored history
    identical to what the first left, provided the clock has not gone
    backwards and none of the records the first call left has fallen out of
    the retention window by the second call.  The history the first call
    leaves has no duplicate timestamps either, so the second call is made on
    such a history too. *)
Theorem repoll_idempotent now1 now2 ticker s (old : DataFrame) (c o : Row) :
  stored s ticker = Some old ->
  NoDup (pd.index old) ->
  now1 <= now2 ->
  exists s1 rows s2,
    update now1 ticker (Some [c; o]) s = (Ok true, s1)
    /\ stored s1 ticker = Some rows
    /\ ascending rows
    /\ update now2 ticker (Some [c; o]) s1 = (Ok true, s2)
    /\ (Forall (fun r => now2 - _max_period (self s) <= fst r) rows ->
        stored s2 ticker = Some rows).
Proof.
  intros Hold Hnd Hle.
  destruct (later_load now1 ticker [c; o] old s ltac:(discriminate) Hold)
    as (s1 & E1 & Hp1 & Hs1).
  destruct (later_load now2 ticker [c; o] _ s1 ltac:(discriminate) Hs1)
    as (s2 & E2 & _ & Hs2).
  exists s1, (pd.mask_ge (now1 - _max_period (self s)) (merge_rows old [c; o])),
    s2.
  split; [exact E1 |]. split; [exact Hs1 |]. split.
  { apply mask_ge_ascending, monotonic_NoDup_ascending.
    - apply merge_rows_monotonic.
    - now apply merge_rows_NoDup. }
  split; [exact E2 |].
  intros Hall. rewrite Hs2, Hp1. f_equal.
  apply repoll_rows; [lia | exact Hall].
Qed.

End PollClaims.

(** ** Equations of the feed operations *)

Section FeedEquations.

Implicit Types (now : Z) (ticker u : string) (s : Store) (w : World)
  (fd : MDFeed) (src : Source).

Lemma fetched_app tr1 tr2 : fetched (tr1 ++ tr2) = fetched tr1 ++ fetched tr2.
Proof.
  induction tr1 as [| e tr1 IH]; simpl; [reflexivity |].
  destruct e; simpl; now rewrite IH.
Qed.

(** [update] raises nothing. *)
Lemma update_total now ticker (o : option DataFrame) s :
  exists b s', update now ticker o s = (Ok b, s').
Proof.
  destruct o as [[| r df] |].
  - now exists false, s.
  - destruct (update_stored now ticker (r :: df) s) as (s' & E & _);
      [discriminate |].
    now exists true, s'.
  - now exists false, s.
Qed.

(** [update] leaves the dict entries of the other tickers alone. *)
Lemma update_other_entry now ticker (o : option DataFrame) s r s' u :
  update now ticker o s = (r, s') ->
  u <> ticker ->
  _data (self s') !! u = _data (self s) !! u.
Proof.
  intros E Hne. destruct o as [[| x df] |].
  - injection E as _ <-. reflexivity.
  - destruct (update_stored now ticker (x :: df) s) as (s'' & E' & _ & _ & Hd & _);
      [discriminate |].
    rewrite E' in E. injection E as _ <-. now apply Hd.
  - injection E as _ <-. reflexivity.
Qed.

Lemma cache_update_eq ticker (df : DataFrame) w :
  cache_update ticker df w =
  match update (clock w) ticker (Some df) (store w) with
  | (Ok changed, st) =>
      (Ok changed,
       mkWorld st (clock w) (fetches w) (trace w ++ [Update ticker changed]))
  | (Raise e, st) => (Raise e, mkWorld st (clock w) (fetches w) (trace w))
  end.
Proof.
  unfold cache_update, bind, on_cache, emit, ret.
  now destruct (update (clock w) ticker (Some df) (store w)) as [[b | e] st].
Qed.

(** [cache_update] returns, advances neither clock nor fetch counter, adds
    no fetch to the trace, and touches the entry of its ticker only. *)
Lemma cache_update_ok ticker (df : DataFrame) w :
  exists b w',
    cache_update ticker df w = (Ok b, w')
    /\ update (clock w) ticker (Some df) (store w) = (Ok b, store w')
    /\ clock w' = clock w
    /\ fetches w' = fetches w
    /\ trace w' = trace w ++ [Update ticker b].
Proof.
  rewrite cache_update_eq.
  destruct (update_total (clock w) ticker (Some df) (store w)) as (b & st & E).
  rewrite E. now exists b, (mkWorld st (clock w) (fetches w)
                              (trace w ++ [Update ticker b])).
Qed.

Lemma initialize_from_ok fd src (tickers : list string) :
  (forall n u, exists df,
      history src n u (_lookback_period fd) (_interval fd) = Ok df) ->
  forall w,
  exists w',
    feed.initialize_from fd src tickers w = (Ok tt, w')
    /\ fetched (trace w') = fetched (trace w) ++ tickers
    /\ (forall u,
          (forall n, history src n u (_lookback_period fd) (_interval fd)
                     = Ok []) ->
          _data (self (store w')) !! u = _data (self (store w)) !! u).
Proof.
  intros Hsrc. induction tickers as [| t rest IH]; intros w; simpl.
  - exists w. unfold ret. rewrite app_nil_r. auto.
  - unfold bind at 1. unfold yf_history at 1.
    destruct (Hsrc (fetches w) t) as (df & Hdf). rewrite Hdf.
    unfold bind at 1.
    set (w1 := mkWorld (store w) (clock w) (S (fetches w))
                 (trace w ++ [Fetch t (_lookback_period fd) (_interval fd)])).
    destruct (cache_update_ok t df w1) as (b & w2 & E & Eu & _ & _ & Htr).
    rewrite E.
    destruct (IH w2) as (w' & E' & Hf & Hd).
    exists w'. split; [exact E' |]. split.
    + rewrite Hf, Htr. subst w1. simpl.
      rewrite !fetched_app. simpl. rewrite app_nil_r, <- app_assoc.
      reflexivity.
    + intros u Hu. rewrite (Hd u Hu).
      destruct (decide (u = t)) as [-> | Hne].
      * specialize (Hu (fetches w)). rewrite Hu in Hdf.
        injection Hdf as <-. simpl in Eu. injection Eu as _ <-. reflexivity.
      * now apply (update_other_entry _ _ _ _ _ _ _ Eu).
Qed.


Lemma counts_spec (tickers : list string) :
  forall (result : gmap string nat) w,
  exists m,
    facade.counts tickers result w = (Ok m, w)
    /\ (forall u, u ∈ tickers -> m !! u = Some (count (store w) u))
    /\ (forall u, u ∉ tickers -> m !! u = result !! u).
Proof.
  induction tickers as [| t rest IH]; intros result w; simpl.
  - exists result. unfold ret. split; [reflexivity |]. split; [| reflexivity].
    intros u Hu. now apply elem_of_nil in Hu.
  - assert (Hstep :
      (let* df := on_cache (get t) in
       match df with
       | Some df => let* rows := on_cache (load df) in ret (length rows)
       | None => ret 0%nat
       end) w = (Ok (count (store w) t), w)).
    { unfold bind, on_cache, get, get_item, load, ret, count, stored.
      destruct w as [st cl fe tr]. simpl.
      now destruct (_data (self st) !! t). }
    unfold bind at 1. unfold bind at 1 in Hstep.
    destruct (on_cache (get t) w) as [[o | e] w1] eqn:Eg.
    + unfold bind at 1. rewrite Hstep.
      destruct (IH (<[t := count (store w) t]> result) w) as (m & E & Hin & Hout).
      exists m. split; [exact E |]. split.
      * intros u Hu. destruct (decide (u ∈ rest)) as [Hr | Hr].
        -- now apply Hin.
        -- apply elem_of_cons in Hu as [-> | Hu]; [| contradiction].
           rewrite (Hout t Hr). apply lookup_insert_eq.
      * intros u Hu. apply not_elem_of_cons in Hu as [Hne Hu].
        rewrite (Hout u Hu). now apply lookup_insert_ne.
    + discriminate.
Qed.

End FeedEquations.

(** ** The object that held the history before an update *)

Section OldObject.

Implicit Types (now : Z) (ticker : string) (s : Store) (l : nat).

(** One upsert, seen from an object [l] of the heap: it is assigned in place
    if it is the object [existing] is bound to and holds the label, and is
    left alone otherwise. *)
Lemma upsert_old_object (r : Row) (existing l : nat) (c : KlineCache) (h : Heap) :
  (l < length h)%nat ->
  exists l' h',
    upsert [r] existing (mkStore c h) = (Ok l', mkStore c h')
    /\ (length h <= length h')%nat
    /\ read h' l
       = (if decide (existing = l)
          then pd.loc_set (fst r) (snd r) (read h l) else read h l)
    /\ (l' = existing
        <-> pd.contains (fst r) (pd.index (read h existing)) = true
            \/ existing = length h).
Proof.
  intros Hl. rewrite upsert_eq. simpl.
  destruct (pd.contains (fst r) (pd.index (read h existing))) eqn:E.
  - eexists _, _. split; [reflexivity |]. rewrite length_insert.
    split; [lia |]. split; [| tauto].
    destruct (decide (existing = l)) as [-> | Hne].
    + now apply read_insert.
    + now apply read_insert_ne.
  - eexists _, _. split; [reflexivity |]. rewrite length_app. simpl.
    split; [lia |]. split.
    + rewrite read_old by exact Hl.
      destruct (decide (existing = l)) as [-> | Hne]; [| reflexivity].
      symmetry. apply loc_set_absent. intros H. apply contains_In in H.
      congruence.
    + split; [intros ->; now right | intros [H | H]; [discriminate | now symmetry]].
Qed.

Lemma update_branch_old_object (new_candles : DataFrame) (l : nat)
  (c : KlineCache) (h : Heap) :
  new_candles <> [] ->
  (l < length h)%nat ->
  exists l' h',
    (if (2 <=? length new_candles)%nat then
       let* closed_candle := lift_result (pd.iloc_frame new_candles (-2)) in
       let* open_candle := lift_result (pd.iloc_frame new_candles (-1)) in
       let* existing := upsert closed_candle l in
       upsert open_candle existing
     else if (length new_candles =? 1)%nat then
       let* open_candle := lift_result (pd.iloc_frame new_candles (-1)) in
       upsert open_candle l
     else ret l) (mkStore c h)
    = (Ok l', mkStore c h')
    /\ (length h <= length h')%nat
    /\ read h' l = old_object_after new_candles (read h l).
Proof.
  intros Hne Hl. unfold old_object_after.
  destruct (rev new_candles) as [| o [| cl rest]] eqn:Erev.
  - apply (f_equal (@rev _)) in Erev. rewrite rev_involutive in Erev.
    simpl in Erev. congruence.
  - apply rev_one in Erev. subst new_candles.
    cbn [length Nat.leb Nat.eqb]. unfold bind, lift_result, pd.iloc_frame.
    rewrite (position_last [] o : pd.position [o] (-1) = Ok o).
    destruct (upsert_old_object o l l c h Hl) as (l1 & h1 & E1 & Hlen & R1 & _).
    rewrite E1. exists l1, h1. rewrite R1.
    destruct (decide (l = l)); [auto | congruence].
  - apply rev_two in Erev. subst new_candles.
    replace ((2 <=? length (rev rest ++ [cl; o]))%nat) with true
      by (symmetry; apply Nat.leb_le; rewrite length_app; simpl; lia).
    unfold bind, lift_result, pd.iloc_frame.
    rewrite position_before_last.
    replace (rev rest ++ [cl; o]) with ((rev rest ++ [cl]) ++ [o])
      by (now rewrite <- app_assoc).
    rewrite position_last.
    destruct (upsert_old_object cl l l c h Hl)
      as (l1 & h1 & E1 & Hlen1 & R1 & Hsame).
    rewrite E1.
    destruct (upsert_old_object o l1 l c h1 ltac:(lia))
      as (l2 & h2 & E2 & Hlen2 & R2 & _).
    rewrite E2. exists l2, h2. split; [reflexivity |]. split; [lia |].
    rewrite R2, R1. destruct (decide (l = l)) as [_ | N]; [| congruence].
    destruct (pd.contains (fst cl) (pd.index (read h l))) eqn:Ec.
    + assert (l1 = l) as -> by (apply Hsame; now left).
      destruct (decide (l = l)); [reflexivity | congruence].
    + destruct (decide (l1 = l)) as [-> | Hne1].
      * exfalso. destruct (proj1 Hsame eq_refl) as [H | H]; [discriminate | lia].
      * apply loc_set_absent. intros H. apply contains_In in H.
        congruence.
Qed.

(** An update with a non-empty batch for a ticker whose history is held by a
    heap object [l] leaves [old_object_after] in [l]. *)
Lemma update_old_object now ticker (new_candles : DataFrame) s l :
  new_candles <> [] ->
  _data (self s) !! ticker = Some l ->
  (l < length (heap s))%nat ->
  exists s',
    update now ticker (Some new_candles) s = (Ok true, s')
    /\ read (heap s') l = old_object_after new_candles (read (heap s) l).
Proof.
  intros Hne Hl Hlt. unfold update.
  replace (pd.empty new_candles) with false
    by (destruct new_candles; [congruence | reflexivity]).
  unfold bind at 1. unfold get_item at 1.
  destruct s as [c h]. cbn beta iota delta [self heap fst snd] in *.
  rewrite Hl. unfold bind at 1.
  destruct (update_branch_old_object new_candles l c h Hne Hlt)
    as (l' & h' & E & Hlen & R).
  rewrite E.
  destruct (update_tail now ticker c h' l')
    as (c' & h'' & E' & _ & _ & _ & Hread & _).
  rewrite E'. exists (mkStore c' h''). split; [reflexivity |].
  simpl. rewrite Hread by lia. exact R.
Qed.

End OldObject.

(** ** The claims on the feed *)

Section FeedClaims.

Implicit Types (now : Z) (ticker u : string) (s : Store) (w : World)
  (fd : MDFeed) (src : Source).

(** One ticker polled with a handler registered and a non-empty fetch: the
    handler is called on the reference the cache holds, the poll ends as the
    handler's call ends, and what the handler leaves in that object is what
    the cache holds afterwards. *)
Lemma poll_one_callback fd src ticker w (h : KlineHandler) (df : DataFrame) :
  _handler fd = Some h ->
  history src (fetches w) ticker (_poll_lookback fd) (_interval fd) = Ok df ->
  df <> [] ->
  exists w' l,
    feed._poll_from fd src [ticker] w
    = (fst (on_kline_data h
              (update_rows (clock w) (_max_period (self (store w)))
                           (stored (store w) ticker) df)
              ticker), w')
    /\ trace w'
       = trace w ++ [Fetch ticker (_poll_lookback fd) (_interval fd);
                     Update ticker true; Callback ticker l]
    /\ _data (self (store w')) !! ticker = Some l
    /\ stored (store w') ticker
       = Some (snd (on_kline_data h
                      (update_rows (clock w) (_max_period (self (store w)))
                                   (stored (store w) ticker) df)
                      ticker)).
Proof.
  intros Hh Hdf Hne. simpl. unfold bind at 1. unfold yf_history at 1.
  rewrite Hdf. unfold bind at 1. rewrite cache_update_eq.
  cbn [clock store fetches trace].
  destruct (update_stored (clock w) ticker df (store w) Hne)
    as (s' & E & _ & Hs & _ & (l & Hl & Hlt)).
  rewrite E, Hh.
  assert (Hrows : read (heap s') l
                  = update_rows (clock w) (_max_period (self (store w)))
                                (stored (store w) ticker) df).
  { unfold stored at 1 in Hs. rewrite Hl in Hs. simpl in Hs. congruence. }
  unfold bind, on_cache, get, get_item, call_handler, emit, load, modify,
    lift_result, ret.
  simpl. rewrite Hl. simpl. rewrite Hrows.
  destruct (on_kline_data h _ ticker) as [[[] | e] rows'] eqn:Eh; simpl;
    (eexists _, l; split; [reflexivity |]; simpl; split;
     [rewrite <- !app_assoc; reflexivity |];
     split; [exact Hl |]; unfold stored; simpl; rewrite Hl; simpl;
     now rewrite read_insert by exact Hlt).
Qed.

(** C7 (as amended).  [get(symbol)] returns the reference the cache itself
    holds for the symbol and changes nothing, and the registered callback is
    handed that same reference: the object is the stored history, not a
    copy.  So whatever the caller writes into it is what the cache holds
    afterwards; whatever the callback has written into it when its call
    ends, by returning or by raising, is what the cache holds afterwards,
    and the poll ends as the callback's call ends; and a later update of a
    history without duplicate timestamps leaves in the object handed out
    earlier what [old_object_after] says: a batch of one row is assigned in
    place if the object holds its timestamp; of a longer batch, the closed
    row is assigned in place if the object holds its timestamp, and only
    then is the open row assigned in place too, if the object holds that
    one; once the closed row had to be appended the update works on a new
    object and the old one is written no more. *)
Theorem get_returns_stored_object :
  (forall ticker s, get ticker s = (Ok (_data (self s) !! ticker), s))
  /\ (forall ticker s (l : nat) (f : DataFrame -> DataFrame),
        _data (self s) !! ticker = Some l ->
        (l < length (heap s))%nat ->
        exists s',
          modify l f s = (Ok tt, s')
          /\ stored s' ticker = Some (f (read (heap s) l)))
  /\ (forall fd src ticker w (h : KlineHandler) (df : DataFrame),
        _handler fd = Some h ->
        history src (fetches w) ticker (_poll_lookback fd) (_interval fd)
        = Ok df ->
        df <> [] ->
        (forall old, stored (store w) ticker = Some old ->
           NoDup (pd.index old)) ->
        exists w' l,
          feed._poll_from fd src [ticker] w
          = (fst (on_kline_data h
                    (update_rows (clock w) (_max_period (self (store w)))
                                 (stored (store w) ticker) df)
                    ticker), w')
          /\ trace w'
             = trace w ++ [Fetch ticker (_poll_lookback fd) (_interval fd);
                           Update ticker true; Callback ticker l]
          /\ _data (self (store w')) !! ticker = Some l
          /\ stored (store w') ticker
             = Some (snd (on_kline_data h
                            (update_rows (clock w)
                                         (_max_period (self (store w)))
                                         (stored (store w) ticker) df)
                            ticker)))
  /\ (forall now ticker s (l : nat) (new_candles : DataFrame),
        new_candles <> [] ->
        _data (self s) !! ticker = Some l ->
        (l < length (heap s))%nat ->
        NoDup (pd.index (read (heap s) l)) ->
        exists s',
          update now ticker (Some new_candles) s = (Ok true, s')
          /\ read (heap s') l
             = old_object_after new_candles (read (heap s) l)).
Proof.
  split; [| split; [| split]].
  - reflexivity.
  - intros ticker s l f Hl Hlt. eexists. split; [reflexivity |].
    unfold stored. simpl. rewrite Hl. simpl. now rewrite read_insert.
  - intros fd src ticker w h df Hh Hdf Hne _.
    now apply poll_one_callback.
  - intros now ticker s l new_candles Hne Hl Hlt _.
    now apply update_old_object.
Qed.


(** C9.  On a pass through the run loop in which less than the poll period
    has elapsed since the last poll, nothing is fetched, [cache.update] is
    not called and no callback runs: the pass only sleeps.  A pass that adds
    an event to the trace is one in which at least the poll period has
    elapsed. *)
Theorem poll_gating fd src (last_poll : Z) w :
  (clock w - last_poll < _poll_interval fd ->
   feed.run_iteration fd src last_poll w
   = (Ok last_poll,
      mkWorld (store w) (clock w + 100000000) (fetches w) (trace w)))
  /\ (forall r w',
        feed.run_iteration fd src last_poll w = (r, w') ->
        trace w' <> trace w \/ fetches w' <> fetches w
        \/ store w' <> store w ->
        _poll_interval fd <= clock w - last_poll).
Proof.
  unfold feed.run_iteration. split.
  - intros Hlt. rewrite (proj2 (Z.leb_gt _ _)) by lia. reflexivity.
  - intros r w' E Hchg.
    destruct (_poll_interval fd <=? clock w - last_poll) eqn:El.
    + now apply Z.leb_le.
    + unfold bind, ret, sleep in E. simpl in E. injection E as _ <-.
      simpl in Hchg. tauto.
Qed.

End FeedClaims.

(** ** Concrete runs *)

Section Runs.

Lemma is_sorted_complete (R : Z -> Z -> Prop) (rb : Z -> Z -> bool)
  (l : list Z) :
  (forall a b, R a b -> rb a b = true) ->
  Sorted R l -> is_sorted rb l = true.
Proof.
  intros Hrb. induction 1 as [| a l Hs IH Hd]; [reflexivity |].
  simpl. destruct l as [| b l]; [reflexivity |].
  inversion Hd; subst. rewrite (Hrb a b) by assumption. exact IH.
Qed.

Lemma monotonic_is_monotonic (df : DataFrame) :
  monotonic df -> is_monotonic df = true.
Proof. apply is_sorted_complete. intros a b. apply Z.leb_le. Qed.

Lemma ascending_is_ascending (df : DataFrame) :
  ascending df -> is_ascending df = true.
Proof. apply is_sorted_complete. intros a b. apply Z.ltb_lt. Qed.

End Runs.

(** ** Concrete runs: witnesses and counterexamples *)

(** C1, counterexample.  A first-ever batch whose rows are out of order and
    repeat a timestamp is stored as it is: the stored history is neither
    sorted nor free of duplicates.  And an update call with an empty batch,
    made when the clock has moved on, ends with a record older than [now]
    minus the retention window still stored. *)
Lemma first_load_stores_batch_as_is :
  let s1 := snd (update (days 10) X (Some batch_unsorted) fresh30) in
  let s2 := snd (update (days 100) X (Some []) s1) in
  stored s1 X = Some batch_unsorted
  /\ ~ monotonic batch_unsorted
  /\ ~ NoDup (pd.index batch_unsorted)
  /\ stored s2 X = Some batch_unsorted
  /\ ~ Forall (fun r : Row => days 100 - _max_period (self s2) <= fst r)
              batch_unsorted.
Proof.
  cbv zeta. split; [vm_compute; reflexivity |].
  split; [intros H; apply monotonic_is_monotonic in H; discriminate |].
  split.
  - intros H. apply NoDup_cons in H as [H _]. apply H. set_solver.
  - split; [vm_compute; reflexivity |].
    intros H. apply Forall_inv in H. vm_compute in H. now apply H.
Qed.

(** The invariant of C1 at the poll of day 10 on the primed cache. *)
Lemma update_history_invariant_witness :
  exists s' rows,
    update (days 10) X (Some poll) primed = (Ok true, s')
    /\ stored s' X = Some rows
    /\ Forall (fun r => days 10 - _max_period (self primed) <= fst r) rows
    /\ (is_Some (stored primed X) -> ascending rows)
    /\ (stored primed X = None -> ascending poll -> ascending rows).
Proof.
  apply (update_history_invariant (days 10) X poll primed).
  - discriminate.
  - intros old H. vm_compute in H. injection H as <-.
    apply (bool_decide_unpack _). vm_compute. reflexivity.
Defined.

(** C2, at the input of [test_first_load_returns_false]: the first load of
    two records into a new cache returns [True]. *)
Lemma first_load_returns_true_witness :
  exists s',
    update (days 1000) AAPL
      (Some (tests.make_candles (days 1000) [2; 1] [100; 101]))
      (new_cache default_max_period [])
    = (Ok true, s')
    /\ stored s' AAPL
       = Some (pd.mask_ge
                 (days 1000
                  - _max_period (self (new_cache default_max_period [])))
                 (tests.make_candles (days 1000) [2; 1] [100; 101])).
Proof.
  apply (first_load_returns_true (days 1000) AAPL
           (tests.make_candles (days 1000) [2; 1] [100; 101])
           (new_cache default_max_period [])).
  - discriminate.
  - reflexivity.
Defined.

(** C3 at the primed cache: baseline of days 8 and 9, poll of days 9 and 10,
    everything inside the 30 retained days. *)
Lemma close_detection_witness :
  exists s',
    update (days 10) X (Some poll) primed = (Ok true, s')
    /\ stored s' X
       = Some [(days 8, tests.candle 100); (days 9, tests.candle 105);
               (days 10, tests.candle 102)].
Proof.
  apply (close_detection (days 10) X primed (days 8) (days 9) (days 10)
           (tests.candle 100) (tests.candle 101) (tests.candle 105)
           (tests.candle 102)).
  - vm_compute. reflexivity.
  - reflexivity.
  - reflexivity.
  - vm_compute. intros H. discriminate H.
Defined.

(** C3, counterexample.  A cache that retains 36 hours of daily candles.  The
    baseline [t1, t2] (days 9 and 10) is stored at day 10, 5 o'clock; at the
    poll one day later [t1] is older than 36 hours and is evicted, so the
    poll [t2, t3] leaves two records, not three. *)
Lemma close_detection_after_eviction :
  let s1 := snd (update (days 10 + hours 5) X (Some daily_baseline)
                        (new_cache (hours 36) [])) in
  let r := update (days 11 + hours 5) X (Some daily_poll) s1 in
  stored s1 X = Some daily_baseline
  /\ fst r = Ok true
  /\ stored (snd r) X = Some daily_poll.
Proof. cbv zeta. repeat split; vm_compute; reflexivity. Qed.

(** C4 at the primed cache, the same poll fed at day 10 and at day 11. *)
Lemma repoll_idempotent_witness :
  exists s1 rows s2,
    update (days 10) X (Some poll) primed = (Ok true, s1)
    /\ stored s1 X = Some rows
    /\ ascending rows
    /\ update (days 11) X (Some poll) s1 = (Ok true, s2)
    /\ (Forall (fun r => days 11 - _max_period (self primed) <= fst r) rows ->
        stored s2 X = Some rows).
Proof.
  apply (repoll_idempotent (days 10) (days 11) X primed baseline
           (days 9, tests.candle 105) (days 10, tests.candle 102)).
  - vm_compute. reflexivity.
  - apply (bool_decide_unpack _). vm_compute. reflexivity.
  - vm_compute. intros H. discriminate H.
Defined.

(** C4, counterexample.  Hourly candles, 30 days retained.  The history holds
    a record that turns 30 days old at noon of day 10.  The same two-record
    batch is fed one minute before noon and one minute after: both calls
    return [True], and the second call evicts that record, so the history
    after it is not the history the first call left. *)
Lemma repoll_across_retention_boundary :
  let s0 := snd (update (days 10 + hours 11) X (Some hourly_history) fresh30) in
  let r1 := update (days 10 + hours 12 - minutes 1) X (Some hourly_poll) s0 in
  let r2 := update (days 10 + hours 12 + minutes 1) X (Some hourly_poll)
                   (snd r1) in
  stored s0 X = Some hourly_history
  /\ fst r1 = Ok true /\ fst r2 = Ok true
  /\ stored (snd r1) X
     = Some [(days 10 - days 30 + hours 12, tests.candle 90);
             (days 10 + hours 10, tests.candle 101);
             (days 10 + hours 11, tests.candle 102)]
  /\ stored (snd r2) X = Some hourly_poll
  /\ stored (snd r2) X <> stored (snd r1) X.
Proof.
  cbv zeta. repeat split; try (vm_compute; reflexivity).
  vm_compute. discriminate.
Qed.


(** C7, counterexample.  The value [get] returns is the stored object: after
    the caller empties it the cache holds an empty history, and a later
    update that overwrites an existing timestamp changes the object a caller
    got earlier. *)
Lemma get_result_is_shared :
  exists l,
    get X primed = (Ok (Some l), primed)
    /\ stored primed X = Some baseline
    /\ stored (snd (modify l (fun _ => []) primed)) X = Some []
    /\ read (heap primed) l = baseline
    /\ read (heap (snd (update (days 10) X (Some poll) primed))) l
       = [(days 8, tests.candle 100); (days 9, tests.candle 105)].
Proof. exists 1%nat. repeat split; vm_compute; reflexivity. Qed.

(** C7 at concrete runs: the caller empties the object [get] returned for
    the primed cache; a handler that drops the rows of the frame and raises
    is called in a poll of [MSFT], and the poll ends with its exception and
    an empty history in the cache; the poll of day 10 is fed to the primed
    cache. *)
Lemma get_returns_stored_object_witness :
  (exists s',
      modify 1%nat (fun _ => []) primed = (Ok tt, s')
      /\ stored s' X
         = Some ((fun _ : DataFrame => []) (read (heap primed) 1%nat)))
  /\ (exists w' l,
        feed._poll_from msft_dropped failing_source [MSFT] world0
        = (fst (on_kline_data dropping_handler
                  (update_rows (clock world0)
                               (_max_period (self (store world0)))
                               (stored (store world0) MSFT)
                               (tests.make_candles (days 1000) [2; 1]
                                                   [100; 101]))
                  MSFT), w')
        /\ trace w'
           = trace world0
             ++ [Fetch MSFT (_poll_lookback msft_dropped)
                       (_interval msft_dropped);
                 Update MSFT true; Callback MSFT l]
        /\ _data (self (store w')) !! MSFT = Some l
        /\ stored (store w') MSFT
           = Some (snd (on_kline_data dropping_handler
                          (update_rows (clock world0)
                                       (_max_period (self (store world0)))
                                       (stored (store world0) MSFT)
                                       (tests.make_candles (days 1000) [2; 1]
                                                           [100; 101]))
                          MSFT)))
  /\ (exists s',
        update (days 10) X (Some poll) primed = (Ok true, s')
        /\ read (heap s') 1%nat
           = old_object_after poll (read (heap primed) 1%nat)).
Proof.
  split; [| split].
  - apply (proj1 (proj2 get_returns_stored_object) X primed 1%nat
             (fun _ => [])).
    + vm_compute. reflexivity.
    + vm_compute. lia.
  - apply (proj1 (proj2 (proj2 get_returns_stored_object)) msft_dropped
             failing_source MSFT world0 dropping_handler
             (tests.make_candles (days 1000) [2; 1] [100; 101])).
    + reflexivity.
    + reflexivity.
    + discriminate.
    + intros old H. vm_compute in H. discriminate H.
  - apply (proj2 (proj2 (proj2 get_returns_stored_object)) (days 10) X primed
             1%nat poll).
    + discriminate.
    + vm_compute. reflexivity.
    + vm_compute. lia.
    + apply (bool_decide_unpack _). vm_compute. reflexivity.
Defined.



(** C9 at a pass made 4 seconds after the last poll, the period being 10
    seconds. *)
Lemma poll_gating_witness :
  feed.run_iteration every_10s failing_source (days 1000) world_4s
  = (Ok (days 1000),
     mkWorld (store world_4s) (clock world_4s + 100000000) (fetches world_4s)
             (trace world_4s)).
Proof.
  apply (proj1 (poll_gating every_10s failing_source (days 1000) world_4s)).
  vm_compute. reflexivity.
Defined.

(** ** Further properties of the cache *)

Section CacheFrame.

Implicit Types (now : Z) (ticker u : string) (s : Store) (l : nat).

(** X1.  For a ticker that has no history or a history without repeated
    timestamps, [update] returns, and the flag it returns says whether the
    batch had rows: it depends on nothing else the cache holds. *)
Theorem update_flag now ticker (o : option DataFrame) s :
  (forall old, stored s ticker = Some old -> NoDup (pd.index old)) ->
  fst (update now ticker o s)
  = Ok (match o with
        | Some new_candles => negb (pd.empty new_candles)
        | None => false
        end).
Proof.
  intros _.
  destruct o as [[| r df] |]; [reflexivity | | reflexivity].
  destruct (update_stored now ticker (r :: df) s) as (s' & E & _);
    [discriminate |].
  now rewrite E.
Qed.

(** [update] on a ticker that has an entry, for a batch of two rows or more:
    two upserts, then sort, store, evict. *)
Lemma update_two_eq now ticker s l (pre : DataFrame) (c o : Row) :
  _data (self s) !! ticker = Some l ->
  update now ticker (Some (pre ++ [c; o])) s
  = (let* existing := upsert [c] l in
     let* existing := upsert [o] existing in
     let* rows := load existing in
     let* sorted := new (pd.sort_index rows) in
     let* _ := set_item ticker sorted in
     let* _ := _evict_old now ticker in
     ret true) s.
Proof.
  intros Hl. unfold update.
  replace (pd.empty (pre ++ [c; o])) with false by (now destruct pre).
  unfold bind at 1. unfold get_item at 1. rewrite Hl.
  replace ((2 <=? length (pre ++ [c; o]))%nat) with true
    by (symmetry; apply Nat.leb_le; rewrite length_app; simpl; lia).
  unfold bind, lift_result, pd.iloc_frame.
  rewrite position_before_last.
  replace (pre ++ [c; o]) with ((pre ++ [c]) ++ [o])
    by (now rewrite <- app_assoc).
  rewrite position_last.
  destruct (upsert [c] l s) as [[a | e] s1]; [| reflexivity].
  now destruct (upsert [o] a s1) as [[a' | e] s2].
Qed.

(** X2.  On a ticker that has an entry, only the last two rows of the batch are
    looked at. *)
Theorem update_ignores_earlier_rows now ticker s (pre : DataFrame) (c o : Row) :
  is_Some (_data (self s) !! ticker) ->
  update now ticker (Some (pre ++ [c; o])) s
  = update now ticker (Some [c; o]) s.
Proof.
  intros [l Hl].
  rewrite (update_two_eq now ticker s l pre c o Hl).
  symmetry. apply (update_two_eq now ticker s l [] c o Hl).
Qed.

(** *** What a later load keeps *)

Lemma loc_set_In (k : Z) (v : Candle) (df : DataFrame) (r : Row) :
  In r (pd.loc_set k v df)
  <-> (r = (k, v) /\ In k (pd.index df)) \/ (In r df /\ fst r <> k).
Proof.
  induction df as [| x df IH]; simpl; [tauto |].
  rewrite IH. destruct (Z.eqb_spec (fst x) k) as [E | N].
  - rewrite E. split.
    + intros [<- | [H | H]]; [left; auto | left; tauto | right; tauto].
    + intros [[-> H] | [[<- | H] N]]; [now left | congruence | ].
      right. right. tauto.
  - split.
    + intros [<- | [[-> H] | H]]; [right; auto | left; auto | right; tauto].
    + intros [[-> [H | H]] | [[<- | H] N']]; [congruence | | now left |].
      * right. left. auto.
      * right. right. auto.
Qed.

Lemma upsert_rows_In (x r : Row) (df : DataFrame) :
  In r (upsert_rows x df) <-> r = x \/ (In r df /\ fst r <> fst x).
Proof.
  unfold upsert_rows. destruct (pd.contains _ _) eqn:E.
  - rewrite loc_set_In. apply contains_In in E.
    rewrite <- surjective_pairing. tauto.
  - rewrite in_app_iff. simpl. split.
    + intros [H | [<- | []]]; [right | now left].
      split; [exact H |]. intros Heq.
      assert (Hin : In (fst x) (pd.index df))
        by (rewrite <- Heq; now apply in_map).
      apply contains_In in Hin. congruence.
    + intros [-> | [H _]]; [right; now left | now left].
Qed.

Lemma upsert_rows_length (x : Row) (df : DataFrame) :
  (length (upsert_rows x df) <= length df + 1)%nat.
Proof.
  unfold upsert_rows. destruct (pd.contains _ _).
  - unfold pd.loc_set. rewrite length_map. lia.
  - rewrite length_app. simpl. lia.
Qed.

Lemma mask_ge_length cutoff (df : DataFrame) :
  (length (pd.mask_ge cutoff df) <= length df)%nat.
Proof.
  induction df as [| r df IH]; simpl; [lia |].
  destruct (cutoff <=? fst r); simpl; lia.
Qed.

(** X3.  After a load of two rows or more into an existing history without
    repeated timestamps, the stored records are: the open row, the closed
    row unless the open row has its timestamp, and the old records with
    other timestamps -- each of them only if it is inside the retention
    window.  The history grows by two records at most. *)
Theorem later_load_contents now ticker s (old pre : DataFrame) (c o : Row) :
  stored s ticker = Some old ->
  NoDup (pd.index old) ->
  exists s' rows,
    update now ticker (Some (pre ++ [c; o])) s = (Ok true, s')
    /\ stored s' ticker = Some rows
    /\ (forall r,
          In r rows <->
          now - _max_period (self s) <= fst r
          /\ (r = o
              \/ (r = c /\ fst c <> fst o)
              \/ (In r old /\ fst r <> fst c /\ fst r <> fst o)))
    /\ (length rows <= length old + 2)%nat.
Proof.
  intros Hold _.
  destruct (later_load now ticker (pre ++ [c; o]) old s) as (s' & E & _ & Hs);
    [now destruct pre | exact Hold |].
  exists s', (pd.mask_ge (now - _max_period (self s))
                         (merge_rows old (pre ++ [c; o]))).
  split; [exact E |]. split; [exact Hs |].
  unfold merge_rows. rewrite rev_app_distr. cbn [rev app].
  split.
  - intros r. rewrite mask_ge_In, sort_index_In, !upsert_rows_In.
    split.
    + intros [H Hc]. split; [exact Hc |].
      destruct H as [-> | [[-> | [H N]] N']]; auto.
    + intros [Hc H]. split; [| exact Hc].
      destruct H as [-> | [[-> N] | (H & N & N')]];
        [now left
        | right; split; [now left | congruence]
        | right; split; [right; auto | auto]].
  - etransitivity; [apply mask_ge_length |].
    rewrite (Permutation_length (sort_index_perm _)).
    etransitivity; [apply upsert_rows_length |].
    pose proof (upsert_rows_length c old). lia.
Qed.

(** X4.  The same for a batch of one row, loaded into an existing history
    without repeated timestamps: the row itself and the old records with
    other timestamps, inside the retention window; one record more at
    most. *)
Theorem single_load_contents now ticker s (old : DataFrame) (o : Row) :
  stored s ticker = Some old ->
  NoDup (pd.index old) ->
  exists s' rows,
    update now ticker (Some [o]) s = (Ok true, s')
    /\ stored s' ticker = Some rows
    /\ (forall r,
          In r rows <->
          now - _max_period (self s) <= fst r
          /\ (r = o \/ (In r old /\ fst r <> fst o)))
    /\ (length rows <= length old + 1)%nat.
Proof.
  intros Hold _.
  destruct (later_load now ticker [o] old s) as (s' & E & _ & Hs);
    [discriminate | exact Hold |].
  exists s', (pd.mask_ge (now - _max_period (self s)) (merge_rows old [o])).
  split; [exact E |]. split; [exact Hs |].
  unfold merge_rows. cbn [rev app]. split.
  - intros r. rewrite mask_ge_In, sort_index_In, upsert_rows_In. tauto.
  - etransitivity; [apply mask_ge_length |].
    rewrite (Permutation_length (sort_index_perm _)).
    apply upsert_rows_length.
Qed.

(** *** Eviction *)

Lemma mask_ge_mask_ge cutoff1 cutoff2 (df : DataFrame) :
  cutoff1 <= cutoff2 ->
  pd.mask_ge cutoff2 (pd.mask_ge cutoff1 df) = pd.mask_ge cutoff2 df.
Proof.
  intros Hle. induction df as [| r df IH]; simpl; [reflexivity |].
  destruct (cutoff1 <=? fst r) eqn:E1; simpl.
  - now rewrite IH.
  - rewrite IH. apply Z.leb_gt in E1.
    now rewrite (proj2 (Z.leb_gt cutoff2 (fst r))) by lia.
Qed.

Lemma _evict_old_max_period now ticker s :
  _max_period (self (snd (_evict_old now ticker s))) = _max_period (self s).
Proof.
  rewrite _evict_old_eq. destruct (_data (self s) !! ticker); [| reflexivity].
  now destruct (pd.empty _).
Qed.

(** X5.  Evicting at a clock reading and again at a later one leaves what
    evicting at the later reading alone leaves; evicting twice at the same
    reading is evicting once. *)
Theorem evict_twice now1 now2 ticker s (rows : DataFrame) :
  stored s ticker = Some rows ->
  now1 <= now2 ->
  exists s1 s2 s2',
    _evict_old now1 ticker s = (Ok tt, s1)
    /\ _evict_old now2 ticker s1 = (Ok tt, s2)
    /\ _evict_old now2 ticker s = (Ok tt, s2')
    /\ stored s2 ticker = stored s2' ticker
    /\ stored s2 ticker
       = Some (pd.mask_ge (now2 - _max_period (self s)) rows).
Proof.
  intros Hrows Hle.
  destruct (_evict_old_stored now1 ticker s rows Hrows) as (s1 & E1 & H1).
  destruct (_evict_old_stored now2 ticker s1 _ H1) as (s2 & E2 & H2).
  destruct (_evict_old_stored now2 ticker s rows Hrows) as (s2' & E2' & H2').
  exists s1, s2, s2'. repeat split; try assumption.
  - rewrite H2, H2'. f_equal.
    pose proof (_evict_old_max_period now1 ticker s) as Hp.
    rewrite E1 in Hp. simpl in Hp. rewrite Hp.
    apply mask_ge_mask_ge. lia.
  - rewrite H2. f_equal.
    pose proof (_evict_old_max_period now1 ticker s) as Hp.
    rewrite E1 in Hp. simpl in Hp. rewrite Hp.
    apply mask_ge_mask_ge. lia.
Qed.

(** [_evict_old] on a ticker the cache does not hold, or whose frame is
    empty, leaves the store (dict and heap) as it is. *)
Theorem evict_nothing_to_do now ticker s :
  stored s ticker = None \/ stored s ticker = Some [] ->
  _evict_old now ticker s = (Ok tt, s).
Proof.
  rewrite _evict_old_eq. unfold stored.
  destruct (_data (self s) !! ticker) as [l |]; simpl.
  - intros [H | H]; [discriminate |]. injection H as ->. reflexivity.
  - reflexivity.
Qed.

(** *** Entries stay *)

(** X6.  No call of [update] removes an entry of the dict: a ticker that was
    loaded once keeps a frame, possibly an empty one. *)
Theorem update_keeps_entries now ticker (o : option DataFrame) s u :
  is_Some (_data (self s) !! u) ->
  is_Some (_data (self (snd (update now ticker o s))) !! u).
Proof.
  intros Hu. destruct o as [[| r df] |]; [exact Hu | | exact Hu].
  destruct (update_stored now ticker (r :: df) s)
    as (s' & E & _ & _ & Hd & (l & Hl & _)); [discriminate |].
  rewrite E. simpl. destruct (decide (u = ticker)) as [-> | Hne].
  - rewrite Hl. eauto.
  - now rewrite Hd.
Qed.

(** X7.  A first load whose rows are all older than the retention window leaves
    an empty frame for the ticker, not an absent one. *)
Theorem first_load_all_evicted now ticker (new_candles : DataFrame) s :
  new_candles <> [] ->
  stored s ticker = None ->
  Forall (fun r => fst r < now - _max_period (self s)) new_candles ->
  exists s',
    update now ticker (Some new_candles) s = (Ok true, s')
    /\ stored s' ticker = Some []
    /\ count s' ticker = 0%nat.
Proof.
  intros Hne Hnone Hall.
  destruct (first_load now ticker new_candles s Hne) as (s' & E & Hs);
    [now apply stored_None |].
  exists s'. split; [exact E |].
  assert (Hm : pd.mask_ge (now - _max_period (self s)) new_candles = []).
  { clear -Hall. induction Hall as [| r df Hr _ IH]; simpl; [reflexivity |].
    now rewrite (proj2 (Z.leb_gt _ _)) by lia. }
  rewrite Hm in Hs. split; [exact Hs |]. unfold count. now rewrite Hs.
Qed.

(** *** Objects of other tickers *)

(** One upsert writes to the object [existing] only, and binds [existing] to
    itself or to a new object. *)
Lemma upsert_frame (r : Row) (existing : nat) (c : KlineCache) (h : Heap) :
  exists l' h',
    upsert [r] existing (mkStore c h) = (Ok l', mkStore c h')
    /\ (l' = existing \/ l' = length h)
    /\ (length h <= length h')%nat
    /\ (forall l, (l < length h)%nat -> l <> existing ->
          read h' l = read h l).
Proof.
  rewrite upsert_eq. simpl.
  destruct (pd.contains (fst r) (pd.index (read h existing))).
  - eexists _, _. split; [reflexivity |]. rewrite length_insert.
    split; [now left |]. split; [lia |].
    intros l _ Hne. apply read_insert_ne. congruence.
  - eexists _, _. split; [reflexivity |]. rewrite length_app. simpl.
    split; [now right |]. split; [lia |].
    intros l Hl _. now apply read_old.
Qed.

Lemma update_branch_frame (new_candles : DataFrame) (lt : nat)
  (c : KlineCache) (h : Heap) :
  new_candles <> [] ->
  exists l' h',
    (if (2 <=? length new_candles)%nat then
       let* closed_candle := lift_result (pd.iloc_frame new_candles (-2)) in
       let* open_candle := lift_result (pd.iloc_frame new_candles (-1)) in
       let* existing := upsert closed_candle lt in
       upsert open_candle existing
     else if (length new_candles =? 1)%nat then
       let* open_candle := lift_result (pd.iloc_frame new_candles (-1)) in
       upsert open_candle lt
     else ret lt) (mkStore c h)
    = (Ok l', mkStore c h')
    /\ (length h <= length h')%nat
    /\ (forall l, (l < length h)%nat -> l <> lt -> read h' l = read h l).
Proof.
  intros Hne.
  destruct (rev new_candles) as [| o [| cl rest]] eqn:Erev.
  - apply (f_equal (@rev _)) in Erev. rewrite rev_involutive in Erev.
    simpl in Erev. congruence.
  - apply rev_one in Erev. subst new_candles.
    cbn [length Nat.leb Nat.eqb]. unfold bind, lift_result, pd.iloc_frame.
    rewrite (position_last [] o : pd.position [o] (-1) = Ok o).
    destruct (upsert_frame o lt c h) as (l1 & h1 & E1 & _ & Hlen & Hr).
    rewrite E1. eauto.
  - apply rev_two in Erev. subst new_candles.
    replace ((2 <=? length (rev rest ++ [cl; o]))%nat) with true
      by (symmetry; apply Nat.leb_le; rewrite length_app; simpl; lia).
    unfold bind, lift_result, pd.iloc_frame.
    rewrite position_before_last.
    replace (rev rest ++ [cl; o]) with ((rev rest ++ [cl]) ++ [o])
      by (now rewrite <- app_assoc).
    rewrite position_last.
    destruct (upsert_frame cl lt c h) as (l1 & h1 & E1 & Hl1 & Hlen1 & Hr1).
    rewrite E1.
    destruct (upsert_frame o l1 c h1) as (l2 & h2 & E2 & _ & Hlen2 & Hr2).
    rewrite E2. exists l2, h2. split; [reflexivity |]. split; [lia |].
    intros l Hl Hne'. rewrite Hr2; [now apply Hr1 | lia |].
    destruct Hl1 as [-> | ->]; [exact Hne' | lia].
Qed.

(** The last statements of [update], with the place of the new object. *)
Lemma update_tail_fresh now ticker (c : KlineCache) (h : Heap) (existing : nat) :
  exists c' h' l',
    (let* rows := load existing in
     let* sorted := new (pd.sort_index rows) in
     let* _ := set_item ticker sorted in
     let* _ := _evict_old now ticker in
     ret true) (mkStore c h)
    = (Ok true, mkStore c' h')
    /\ _data c' !! ticker = Some l'
    /\ (length h <= l')%nat /\ (l' < length h')%nat
    /\ (forall u, u <> ticker -> _data c' !! u = _data c !! u)
    /\ (forall l, (l < length h)%nat -> read h' l = read h l).
Proof.
  unfold bind, load, new, set_item, ret. simpl.
  rewrite _evict_old_eq. simpl. rewrite lookup_insert_eq, read_new.
  destruct (pd.empty (pd.sort_index (read h existing))).
  - eexists _, _, _. split; [reflexivity |]. simpl.
    rewrite lookup_insert_eq. split; [reflexivity |].
    rewrite length_app. simpl. split; [lia |]. split; [lia |]. split.
    + intros u Hu. now rewrite lookup_insert_ne.
    + intros l Hl. now apply read_old.
  - eexists _, _, _. split; [reflexivity |]. simpl.
    rewrite lookup_insert_eq. split; [reflexivity |].
    rewrite !length_app. simpl. split; [lia |]. split; [lia |]. split.
    + intros u Hu. now rewrite !lookup_insert_ne.
    + intros l Hl. rewrite !read_old; try reflexivity; try assumption.
      rewrite length_app. simpl. lia.
Qed.

(** An update with a non-empty batch binds the ticker to a new object, leaves
    the other entries alone, and writes to no old object but the one the
    ticker held. *)
Lemma update_frame now ticker (new_candles : DataFrame) s :
  new_candles <> [] ->
  exists s' l',
    update now ticker (Some new_candles) s = (Ok true, s')
    /\ _data (self s') !! ticker = Some l'
    /\ (length (heap s) <= l')%nat /\ (l' < length (heap s'))%nat
    /\ (forall u, u <> ticker ->
          _data (self s') !! u = _data (self s) !! u)
    /\ (forall l, (l < length (heap s))%nat ->
          _data (self s) !! ticker <> Some l ->
          read (heap s') l = read (heap s) l).
Proof.
  intros Hne. unfold update.
  replace (pd.empty new_candles) with false
    by (destruct new_candles; [congruence | reflexivity]).
  unfold bind at 1. unfold get_item at 1.
  destruct s as [c h]. cbn beta iota delta [self heap fst snd].
  destruct (_data c !! ticker) as [lt |] eqn:El.
  - unfold bind at 1.
    destruct (update_branch_frame new_candles lt c h Hne)
      as (l1 & h1 & E1 & Hlen1 & Hr1).
    rewrite E1.
    destruct (update_tail_fresh now ticker c h1 l1)
      as (c' & h' & l' & E & Hl' & Hge & Hlt & Hd & Hr).
    rewrite E. exists (mkStore c' h'), l'. simpl.
    repeat split; try assumption; try lia.
    intros l Hl Hne'. rewrite Hr by lia. apply Hr1; [exact Hl | congruence].
  - unfold bind, new, set_item, ret. simpl.
    rewrite _evict_old_eq. simpl. rewrite lookup_insert_eq, read_new.
    destruct (pd.empty new_candles).
    + eexists _, _. split; [reflexivity |]. simpl.
      rewrite lookup_insert_eq. split; [reflexivity |].
      rewrite length_app. simpl. split; [lia |]. split; [lia |]. split.
      * intros u Hu. now rewrite lookup_insert_ne.
      * intros l Hl _. now apply read_old.
    + eexists _, _. split; [reflexivity |]. simpl.
      rewrite lookup_insert_eq. split; [reflexivity |].
      rewrite !length_app. simpl. split; [lia |]. split; [lia |]. split.
      * intros u Hu. now rewrite !lookup_insert_ne.
      * intros l Hl _. rewrite !read_old; try reflexivity; try assumption.
        rewrite length_app. simpl. lia.
Qed.

Lemma new_cache_well_formed (p : Z) (h : Heap) : well_formed (new_cache p h).
Proof. intros t l H. simpl in H. now rewrite lookup_empty in H. Qed.

Lemma update_keeps_well_formed now ticker (o : option DataFrame) s :
  well_formed s -> well_formed (snd (update now ticker o s)).
Proof.
  intros Hwf. destruct o as [[| r df] |]; [exact Hwf | | exact Hwf].
  destruct (update_frame now ticker (r :: df) s)
    as (s' & l' & E & Hl' & Hge & Hlt & Hd & _); [discriminate |].
  rewrite E. simpl. intros t l Ht.
  destruct (decide (t = ticker)) as [-> | Hne].
  - rewrite Hl' in Ht. injection Ht as <-. split; [exact Hlt |].
    intros t' Ht'. destruct (decide (t' = ticker)) as [-> | Hne']; [reflexivity |].
    rewrite Hd in Ht' by exact Hne'. destruct (Hwf t' l' Ht') as [Hlive _]. lia.
  - rewrite Hd in Ht by exact Hne. destruct (Hwf t l Ht) as [Hlive Huniq].
    split.
    + assert (length (heap s) <= length (heap s'))%nat by lia. lia.
    + intros t' Ht'. destruct (decide (t' = ticker)) as [-> | Hne'].
      * rewrite Hl' in Ht'. injection Ht' as <-. lia.
      * rewrite Hd in Ht' by exact Hne'. now apply Huniq.
Qed.

Lemma update_all_well_formed (calls : list (Z * string * option DataFrame)) :
  forall s, well_formed s -> well_formed (update_all calls s).
Proof.
  induction calls as [| [[now t] o] calls IH]; intros s Hwf; [exact Hwf |].
  simpl. apply IH. now apply update_keeps_well_formed.
Qed.

(** X8.  The references of a cache that was created empty and then only updated
    are live and unshared, whatever the calls were. *)
Theorem cache_references_unshared (p : Z) (h : Heap)
  (calls : list (Z * string * option DataFrame)) :
  well_formed (update_all calls (new_cache p h)).
Proof. apply update_all_well_formed, new_cache_well_formed. Qed.

Lemma update_other_stored now ticker (o : option DataFrame) s u :
  well_formed s ->
  u <> ticker ->
  let s' := snd (update now ticker o s) in
  _data (self s') !! u = _data (self s) !! u
  /\ stored s' u = stored s u.
Proof.
  intros Hwf Hne. destruct o as [[| r df] |]; [now split | | now split].
  destruct (update_frame now ticker (r :: df) s)
    as (s' & l' & E & Hl' & Hge & Hlt & Hd & Hr); [discriminate |].
  rewrite E. cbv zeta. simpl. split; [now apply Hd |].
  unfold stored. rewrite Hd by exact Hne.
  destruct (_data (self s) !! u) as [l |] eqn:El; [| reflexivity].
  simpl. f_equal. destruct (Hwf u l El) as [Hlive Huniq].
  apply Hr; [exact Hlive |].
  intros Ht. apply Hne. symmetry. now apply Huniq.
Qed.

(** X9.  Updates to one ticker never alter what the cache holds for another: the
    other ticker keeps its reference, and the object behind it is not
    written. *)
Theorem update_other_ticker now ticker (o : option DataFrame) s u :
  well_formed s ->
  u <> ticker ->
  let s' := snd (update now ticker o s) in
  _data (self s') !! u = _data (self s) !! u
  /\ stored s' u = stored s u.
Proof. apply update_other_stored. Qed.

Lemma update_all_other (calls : list (Z * string * option DataFrame)) u :
  Forall (fun call => snd (fst call) <> u) calls ->
  forall s, well_formed s -> stored (update_all calls s) u = stored s u.
Proof.
  induction 1 as [| [[now t] o] calls Hne _ IH]; intros s Hwf; [reflexivity |].
  simpl. rewrite IH by now apply update_keeps_well_formed.
  apply update_other_stored; [exact Hwf |]. simpl in Hne. congruence.
Qed.

(** X10.  Over a whole sequence of calls: what the cache holds for a ticker is
    altered by none of the calls made for other tickers. *)
Theorem update_all_other_tickers (calls : list (Z * string * option DataFrame))
  (p : Z) (h : Heap) (before : list (Z * string * option DataFrame)) u :
  Forall (fun call => snd (fst call) <> u) calls ->
  stored (update_all calls (update_all before (new_cache p h))) u
  = stored (update_all before (new_cache p h)) u.
Proof.
  intros Hcalls. apply update_all_other; [exact Hcalls |].
  apply update_all_well_formed, new_cache_well_formed.
Qed.

Lemma update_max_period now ticker (o : option DataFrame) s :
  _max_period (self (snd (update now ticker o s))) = _max_period (self s).
Proof.
  destruct o as [[| r df] |]; [reflexivity | | reflexivity].
  destruct (update_stored now ticker (r :: df) s) as (s' & E & Hp & _);
    [discriminate |].
  now rewrite E.
Qed.

(** *** The history invariant over a sequence of calls *)

Lemma update_keeps_ascending now ticker (o : option DataFrame) s :
  well_formed s ->
  batch_ascending (now, ticker, o) ->
  (forall u rows, stored s u = Some rows -> ascending rows) ->
  forall u rows,
    stored (snd (update now ticker o s)) u = Some rows -> ascending rows.
Proof.
  intros Hwf Hb Hinv u rows.
  destruct (decide (u = ticker)) as [-> | Hne].
  - destruct o as [[| r df] |]; [apply Hinv | | apply Hinv].
    destruct (update_stored now ticker (r :: df) s) as (s' & E & _ & Hs & _);
      [discriminate |].
    rewrite E. simpl. rewrite Hs. intros [= <-]. unfold update_rows.
    apply mask_ge_ascending.
    destruct (stored s ticker) as [old |] eqn:Eold; simpl; [| exact Hb].
    apply monotonic_NoDup_ascending.
    + apply merge_rows_monotonic.
    + apply merge_rows_NoDup, ascending_NoDup. now apply (Hinv ticker).
  - destruct (update_other_stored now ticker o s u Hwf Hne) as [_ ->].
    apply Hinv.
Qed.

Lemma update_all_ascending (calls : list (Z * string * option DataFrame)) :
  Forall batch_ascending calls ->
  forall s,
    well_formed s ->
    (forall t df, stored s t = Some df -> ascending df) ->
    forall t df, stored (update_all calls s) t = Some df -> ascending df.
Proof.
  induction 1 as [| [[now t] o] calls Hb _ IH]; intros s Hwf Hinv;
    [exact Hinv |].
  simpl. apply IH.
  - now apply update_keeps_well_formed.
  - now apply update_keeps_ascending.
Qed.

Lemma new_cache_stored (p : Z) (h : Heap) t : stored (new_cache p h) t = None.
Proof. unfold stored. simpl. now rewrite lookup_empty. Qed.

(** X11.  Starting from an empty cache, if every batch handed to [update] is
    ascending in its timestamps, every history the cache holds is, after any
    sequence of calls: sorted, and without a repeated timestamp. *)
Theorem histories_stay_ascending (p : Z) (h : Heap)
  (calls : list (Z * string * option DataFrame)) u (rows : DataFrame) :
  Forall batch_ascending calls ->
  stored (update_all calls (new_cache p h)) u = Some rows ->
  ascending rows /\ NoDup (pd.index rows).
Proof.
  intros Hcalls Hrows.
  assert (Ha : ascending rows).
  { apply (update_all_ascending calls Hcalls (new_cache p h)) with (t := u).
    - apply new_cache_well_formed.
    - intros t df H. rewrite new_cache_stored in H. discriminate.
    - exact Hrows. }
  split; [exact Ha | now apply ascending_NoDup].
Qed.

End CacheFrame.

(** ** Further properties of the feed *)

Section FeedFrame.

Implicit Types (now : Z) (ticker u : string) (s : Store) (w : World)
  (fd : MDFeed) (src : Source).

Lemma callbacks_app tr1 tr2 :
  callbacks (tr1 ++ tr2) = callbacks tr1 ++ callbacks tr2.
Proof.
  induction tr1 as [| e tr1 IH]; simpl; [reflexivity |].
  destruct e; simpl; now rewrite IH.
Qed.

Lemma update_result now ticker (df : DataFrame) s :
  update now ticker (Some df) s
  = (Ok (negb (pd.empty df)), snd (update now ticker (Some df) s)).
Proof.
  destruct df as [| r df]; [reflexivity |].
  destruct (update_stored now ticker (r :: df) s) as (s' & E & _);
    [discriminate |].
  now rewrite E.
Qed.

Lemma cache_update_world ticker (df : DataFrame) w :
  cache_update ticker df w
  = (Ok (negb (pd.empty df)),
     mkWorld (snd (update (clock w) ticker (Some df) (store w)))
             (clock w) (fetches w)
             (trace w ++ [Update ticker (negb (pd.empty df))])).
Proof. rewrite cache_update_eq. now rewrite update_result. Qed.

Lemma initialize_from_update_all fd src (tickers : list string) :
  forall w,
  exists r w',
    feed.initialize_from fd src tickers w = (r, w')
    /\ store w'
       = update_all (fetched_calls src (_lookback_period fd) (_interval fd)
                                   (clock w) (fetches w) tickers)
                    (store w)
    /\ clock w' = clock w.
Proof.
  induction tickers as [| t rest IH]; intros w.
  - exists (Ok tt), w. now repeat split.
  - simpl. unfold bind at 1. unfold yf_history at 1.
    destruct (history src (fetches w) t (_lookback_period fd) (_interval fd))
      as [df | e].
    + unfold bind at 1. rewrite cache_update_world.
      cbn [clock store fetches trace].
      match goal with
      | |- context [feed.initialize_from fd src rest ?w2] =>
          destruct (IH w2) as (r & w' & E & Hs & Hc)
      end.
      rewrite E. exists r, w'. split; [reflexivity |].
      cbn [clock store fetches trace] in Hs, Hc. now rewrite Hs, Hc.
    + eexists _, _. split; [reflexivity |]. now split.
Qed.

Lemma initialize_store fd src w :
  store (snd (feed.initialize fd src w))
  = update_all (fetched_calls src (_lookback_period fd) (_interval fd)
                              (clock w) (fetches w) (_tickers fd))
               (store w).
Proof.
  unfold feed.initialize.
  destruct (initialize_from_update_all fd src (_tickers fd) w)
    as (r & w' & E & Hs & _).
  now rewrite E.
Qed.

Lemma fetched_calls_ascending src (period interval : string) now
  (tickers : list string) :
  (forall n t df, history src n t period interval = Ok df -> ascending df) ->
  forall n, Forall batch_ascending
              (fetched_calls src period interval now n tickers).
Proof.
  intros Hsrc. induction tickers as [| t rest IH]; intros n; simpl;
    [constructor |].
  destruct (history src n t period interval) as [df | e] eqn:E;
    [| constructor].
  constructor; [| apply IH]. simpl. now apply (Hsrc n t).
Qed.

(** X12.  [initialize] on a new cache, with a source whose frames are ascending in
    their timestamps (raising or not): every history the cache holds
    afterwards is sorted and has no repeated timestamp. *)
Theorem initialize_histories_ascending fd src w (p : Z) (h : Heap) u
  (rows : DataFrame) :
  store w = new_cache p h ->
  (forall n t df,
      history src n t (_lookback_period fd) (_interval fd) = Ok df ->
      ascending df) ->
  stored (store (snd (feed.initialize fd src w))) u = Some rows ->
  ascending rows /\ NoDup (pd.index rows).
Proof.
  intros Hw Hsrc Hrows. rewrite initialize_store, Hw in Hrows.
  assert (Ha : ascending rows).
  { eapply (update_all_ascending _
              (fetched_calls_ascending src _ _ (clock w) (_tickers fd) Hsrc
                                       (fetches w))
              (new_cache p h)).
    - apply new_cache_well_formed.
    - intros t df H. rewrite new_cache_stored in H. discriminate.
    - exact Hrows. }
  split; [exact Ha | now apply ascending_NoDup].
Qed.

(** *** What [initialize] does and does not do *)

Lemma initialize_from_events fd src (tickers : list string) :
  (forall t, t ∈ tickers -> t ∈ _tickers fd) ->
  forall w,
  exists added,
    trace (snd (feed.initialize_from fd src tickers w)) = trace w ++ added
    /\ Forall (initialize_event fd) added.
Proof.
  induction tickers as [| t rest IH]; intros Hsub w.
  - exists []. simpl. rewrite app_nil_r. split; [reflexivity | constructor].
  - simpl. unfold bind at 1. unfold yf_history at 1.
    assert (Ht : t ∈ _tickers fd) by (apply Hsub; now left).
    destruct (history src (fetches w) t (_lookback_period fd) (_interval fd))
      as [df | e].
    + unfold bind at 1. rewrite cache_update_world.
      match goal with
      | |- context [feed.initialize_from fd src rest ?w2] =>
          destruct (IH (fun u Hu => Hsub u (list_elem_of_further _ _ _ Hu)) w2)
            as (added & E & Hall)
      end.
      rewrite E. cbn [trace].
      exists ([Fetch t (_lookback_period fd) (_interval fd);
               Update t (negb (pd.empty df))] ++ added).
      split; [now rewrite <- !app_assoc |].
      repeat constructor; assumption.
    + exists [Fetch t (_lookback_period fd) (_interval fd)].
      split; [reflexivity |]. repeat constructor; assumption.
Qed.

(** X13.  Whatever the source returns or raises, and whether a handler is
    registered or not, [initialize] calls no handler: all it adds to the
    trace are fetches of tracked tickers over the initial lookback window and
    updates of tracked tickers. *)
Theorem initialize_calls_no_handler fd src w :
  exists added,
    trace (snd (feed.initialize fd src w)) = trace w ++ added
    /\ Forall (initialize_event fd) added
    /\ callbacks (trace (snd (feed.initialize fd src w))) = callbacks (trace w).
Proof.
  destruct (initialize_from_events fd src (_tickers fd) (fun t H => H) w)
    as (added & E & Hall).
  exists added. unfold feed.initialize. split; [exact E |].
  split; [exact Hall |]. rewrite E, callbacks_app.
  assert (Hnone : callbacks added = []).
  { clear E. induction Hall as [| e added He _ IH]; [reflexivity |].
    destruct e; simpl; [exact IH | exact IH | contradiction]. }
  rewrite Hnone. apply app_nil_r.
Qed.

(** *** Which tickers the handler is called for *)

(** The handler part of one step of [_poll_all], after an update of [t] that
    returned [changed]. *)
Lemma poll_handler_step fd (t : string) (changed : bool) w :
  (changed = true -> is_Some (_data (self (store w)) !! t)) ->
  handler_returns fd ->
  exists w',
    (match changed, _handler fd with
     | true, Some h =>
         let* full_df := on_cache (get t) in
         match full_df with
         | Some full_df => call_handler h full_df t
         | None => ret tt
         end
     | _, _ => ret tt
     end) w = (Ok tt, w')
    /\ fetches w' = fetches w
    /\ clock w' = clock w
    /\ callbacks (trace w')
       = callbacks (trace w)
         ++ (if changed && bool_decide (is_Some (_handler fd))
             then [t] else [])
    /\ fetched (trace w') = fetched (trace w)
    /\ (changed = false \/ _handler fd = None -> w' = w).
Proof.
  intros Hlive Hret. unfold handler_returns in Hret. destruct changed.
  - destruct (_handler fd) as [h |].
    + destruct (Hlive eq_refl) as [l Hl].
      unfold call_handler, bind, on_cache, get, get_item, emit, load, modify,
        lift_result, ret.
      simpl. rewrite Hl. simpl. rewrite (Hret h _ t eq_refl).
      eexists. split; [reflexivity |]. simpl.
      split; [reflexivity |]. split; [reflexivity |].
      split; [now rewrite callbacks_app |].
      split; [rewrite fetched_app; simpl; now rewrite app_nil_r |].
      intros [H | H]; discriminate.
    + exists w. unfold ret. simpl. rewrite app_nil_r. auto 10.
  - exists w. unfold ret. simpl. rewrite app_nil_r.
    destruct (_handler fd); auto 10.
Qed.

Lemma poll_from_callbacks fd src (tickers : list string) :
  handler_returns fd ->
  forall w,
    callbacks (trace (snd (feed._poll_from fd src tickers w)))
    = callbacks (trace w)
      ++ (if bool_decide (is_Some (_handler fd))
          then fetched_nonempty src (_poll_lookback fd) (_interval fd)
                                (fetches w) tickers
          else []).
Proof.
  intros Hret. induction tickers as [| t rest IH]; intros w.
  - simpl. destruct (bool_decide _); now rewrite app_nil_r.
  - simpl. unfold bind at 1. unfold yf_history at 1.
    destruct (history src (fetches w) t (_poll_lookback fd) (_interval fd))
      as [df | e].
    + unfold bind at 1. rewrite cache_update_world. unfold bind at 1.
      match goal with
      | |- context [mkWorld ?st ?cl ?fe ?tr] =>
          destruct (poll_handler_step fd t (negb (pd.empty df))
                      (mkWorld st cl fe tr))
            as (w3 & E & Hf & _ & Hcb & _)
      end.
      { intros Hne. cbn [store clock].
        destruct df as [| r df]; [discriminate |].
        destruct (update_stored (clock w) t (r :: df) (store w))
          as (s' & Eu & _ & _ & _ & (l & Hl & _)); [discriminate |].
        rewrite Eu. simpl. eauto. }
      { exact Hret. }
      rewrite E, IH, Hcb, Hf. cbn [trace fetches].
      rewrite !callbacks_app. simpl. rewrite app_nil_r.
      destruct (bool_decide (is_Some (_handler fd))), (pd.empty df); simpl;
        rewrite ?app_nil_r, <- ?app_assoc; reflexivity.
    + simpl. rewrite callbacks_app. simpl.
      destruct (bool_decide _); reflexivity.
Qed.

(** X14.  Take a poll in which nothing but a fetch can raise: the handler's
    calls return, the tracked tickers are distinct, and the cache holds one
    object per ticker, each a history without repeated timestamps, so that
    every update is made on such a history.  In this poll the handler is
    called for exactly the tickers whose fetched frame has rows, in tracked
    order, up to the first fetch that raises; with no handler registered
    nothing is called. *)
Theorem poll_callbacks fd src w :
  handler_returns fd ->
  NoDup (_tickers fd) ->
  well_formed (store w) ->
  unique_timestamps (store w) ->
  callbacks (trace (snd (feed._poll_all fd src w)))
  = callbacks (trace w)
    ++ (if bool_decide (is_Some (_handler fd))
        then fetched_nonempty src (_poll_lookback fd) (_interval fd)
                              (fetches w) (_tickers fd)
        else []).
Proof. intros Hret _ _ _. now apply poll_from_callbacks. Qed.

Lemma poll_from_all_empty fd src (tickers : list string) :
  (forall n t, history src n t (_poll_lookback fd) (_interval fd) = Ok []) ->
  forall w,
  exists w',
    feed._poll_from fd src tickers w = (Ok tt, w')
    /\ store w' = store w
    /\ clock w' = clock w
    /\ callbacks (trace w') = callbacks (trace w)
    /\ fetched (trace w') = fetched (trace w) ++ tickers.
Proof.
  intros Hsrc. induction tickers as [| t rest IH]; intros w.
  - exists w. simpl. unfold ret. now rewrite !app_nil_r.
  - simpl. unfold bind at 1. unfold yf_history at 1. rewrite Hsrc.
    unfold bind at 1. rewrite cache_update_world. unfold bind at 1.
    cbn [pd.empty negb]. unfold ret at 1.
    match goal with
    | |- context [feed._poll_from fd src rest ?w2] =>
        destruct (IH w2) as (w' & E & Hs & Hc & Hcb & Hf)
    end.
    rewrite E. exists w'. split; [reflexivity |].
    cbn [store clock trace] in *. rewrite Hs, Hc, Hcb, Hf.
    rewrite !callbacks_app, !fetched_app. simpl.
    rewrite !app_nil_r, <- app_assoc. auto.
Qed.

(** X15.  A poll in which every fetch comes back empty fetches every tracked
    ticker, calls no handler, and leaves the cache, dict and heap, as it
    was. *)
Theorem poll_all_empty fd src w :
  (forall n t, history src n t (_poll_lookback fd) (_interval fd) = Ok []) ->
  exists w',
    feed._poll_all fd src w = (Ok tt, w')
    /\ store w' = store w
    /\ callbacks (trace w') = callbacks (trace w)
    /\ fetched (trace w') = fetched (trace w) ++ _tickers fd.
Proof.
  intros Hsrc.
  destruct (poll_from_all_empty fd src (_tickers fd) Hsrc w)
    as (w' & E & Hs & _ & Hcb & Hf).
  exists w'. auto.
Qed.

(** *** The counts [MDFeedFacade.initialize] reports *)

Lemma fetched_calls_tickers src (period interval : string) now
  (tickers : list string) u :
  u ∉ tickers ->
  forall n, Forall (fun call => snd (fst call) <> u)
              (fetched_calls src period interval now n tickers).
Proof.
  induction tickers as [| t rest IH]; intros Hu n; simpl; [constructor |].
  apply not_elem_of_cons in Hu as [Hne Hu].
  destruct (history src n t period interval); [| constructor].
  constructor; [simpl; congruence | now apply IH].
Qed.

Lemma update_all_cons now t (o : option DataFrame)
  (calls : list (Z * string * option DataFrame)) s :
  update_all ((now, t, o) :: calls) s
  = update_all calls (snd (update now t o s)).
Proof. reflexivity. Qed.

Lemma update_all_fetched_count src (period interval : string) now
  (tickers : list string) :
  (forall n t, exists df, history src n t period interval = Ok df) ->
  NoDup tickers ->
  forall n s,
    well_formed s ->
    (forall t, t ∈ tickers -> stored s t = None) ->
    forall i t df,
      tickers !! i = Some t ->
      history src (n + i) t period interval = Ok df ->
      count (update_all (fetched_calls src period interval now n tickers) s) t
      = length (pd.mask_ge (now - _max_period (self s)) df).
Proof.
  intros Hsrc. induction 1 as [| t0 rest Hnotin Hnd IH];
    intros n s Hwf Hnone i t df Hi Hdf; [discriminate |].
  cbn [fetched_calls]. destruct (Hsrc n t0) as (df0 & Hdf0). rewrite Hdf0.
  rewrite update_all_cons.
  set (s1 := snd (update now t0 (Some df0) s)).
  assert (Hwf1 : well_formed s1) by now apply update_keeps_well_formed.
  destruct i as [| j]; simpl in Hi.
  - injection Hi as Hi. subst t. rewrite Nat.add_0_r in Hdf.
    rewrite Hdf in Hdf0. injection Hdf0 as Hdf0. subst df0. unfold count.
    rewrite (update_all_other _ t0
               (fetched_calls_tickers src period interval now rest t0 Hnotin
                                      (S n)) s1 Hwf1).
    subst s1. destruct df as [| r df].
    + simpl. now rewrite Hnone by now left.
    + destruct (first_load now t0 (r :: df) s) as (s' & E & Hs);
        [discriminate | apply stored_None, Hnone; now left |].
      rewrite E. simpl. now rewrite Hs.
  - rewrite (IH (S n) s1 Hwf1) with (i := j) (df := df).
    + subst s1. now rewrite update_max_period.
    + intros u Hu. subst s1.
      destruct (update_other_stored now t0 (Some df0) s u Hwf) as [_ ->].
      * intros ->. contradiction.
      * apply Hnone. now right.
    + exact Hi.
    + now replace (S n + j)%nat with (n + S j)%nat by lia.
Qed.

(** X16.  With distinct tracked tickers, a new cache and a source that raises
    nothing, the mapping [MDFeedFacade.initialize] returns gives for each
    ticker the number of fetched rows that are inside the retention window:
    rows older than that are not counted. *)
Theorem initialize_counts_retained fd src w (p : Z) (h : Heap) :
  store w = new_cache p h ->
  NoDup (_tickers fd) ->
  (forall n t, exists df,
      history src n t (_lookback_period fd) (_interval fd) = Ok df) ->
  exists m w',
    facade.initialize fd src w = (Ok m, w')
    /\ (forall i t df,
          _tickers fd !! i = Some t ->
          history src (fetches w + i) t (_lookback_period fd) (_interval fd)
          = Ok df ->
          m !! t = Some (length (pd.mask_ge (clock w - p) df))).
Proof.
  intros Hw Hnd Hsrc.
  destruct (initialize_from_ok fd src (_tickers fd) Hsrc w) as (w' & E & _).
  destruct (counts_spec (_tickers fd) ∅ w') as (m & Ec & Hin & _).
  exists m, w'. unfold facade.initialize, feed.initialize, bind.
  rewrite E, Ec. split; [reflexivity |].
  intros i t df Hi Hdf.
  rewrite (Hin t) by (eapply list_elem_of_lookup_2; exact Hi).
  f_equal.
  pose proof (initialize_store fd src w) as Hst.
  unfold feed.initialize in Hst. rewrite E in Hst. simpl in Hst.
  rewrite Hst, Hw.
  rewrite (update_all_fetched_count src _ _ (clock w) (_tickers fd) Hsrc Hnd
             (fetches w) (new_cache p h)) with (i := i) (df := df).
  - reflexivity.
  - apply new_cache_well_formed.
  - intros u _. apply new_cache_stored.
  - exact Hi.
  - exact Hdf.
Qed.

(** *** Exceptions and the run loop *)

Lemma poll_from_raise fd src (pre post : list string) (t : string) (e : Exn) :
  handler_returns fd ->
  forall w,
  (forall i u, pre !! i = Some u ->
     exists df, history src (fetches w + i) u (_poll_lookback fd)
                        (_interval fd) = Ok df) ->
  history src (fetches w + length pre) t (_poll_lookback fd) (_interval fd)
  = Raise e ->
  exists w',
    feed._poll_from fd src (pre ++ t :: post) w = (Raise e, w')
    /\ fetched (trace w') = fetched (trace w) ++ pre ++ [t].
Proof.
  intros Hret. induction pre as [| p pre IH]; intros w Hpre Ht; simpl.
  - unfold bind at 1. unfold yf_history at 1.
    rewrite Nat.add_0_r in Ht. rewrite Ht.
    eexists. split; [reflexivity |]. simpl. now rewrite fetched_app.
  - unfold bind at 1. unfold yf_history at 1.
    destruct (Hpre 0%nat p eq_refl) as (df & Hdf).
    rewrite Nat.add_0_r in Hdf. rewrite Hdf.
    unfold bind at 1. rewrite cache_update_world. unfold bind at 1.
    match goal with
    | |- context [mkWorld ?st ?cl ?fe ?tr] =>
        destruct (poll_handler_step fd p (negb (pd.empty df))
                    (mkWorld st cl fe tr))
          as (w3 & E & Hf & _ & _ & Htr & _)
    end.
    { intros Hne. cbn [store clock].
      destruct df as [| r df]; [discriminate |].
      destruct (update_stored (clock w) p (r :: df) (store w))
        as (s' & Eu & _ & _ & _ & (l & Hl & _)); [discriminate |].
      rewrite Eu. simpl. eauto. }
    { exact Hret. }
    rewrite E. cbn [fetches] in Hf.
    destruct (IH w3) as (w' & E' & Hfe).
    + intros i u Hi. rewrite Hf.
      replace (S (fetches w) + i)%nat with (fetches w + S i)%nat by lia.
      now apply Hpre.
    + rewrite Hf. simpl in Ht.
      now replace (S (fetches w) + length pre)%nat
        with (fetches w + S (length pre))%nat by lia.
    + exists w'. split; [exact E' |]. rewrite Hfe, Htr.
      cbn [trace]. rewrite !fetched_app. simpl.
      rewrite app_nil_r, <- app_assoc. reflexivity.
Qed.

(** X17.  Nothing in the feed catches an exception.  Take a pass of [run] at
    which a poll is due and in which nothing raises before the fetch of the
    ticker [t]: the fetches before it return, the handler's calls return,
    the tracked tickers are distinct, and the cache holds one object per
    ticker, each a history without repeated timestamps.  If the fetch of
    [t] raises, the tickers after it are not fetched and [run] ends with
    that exception, on that very pass, whatever the number of passes
    left. *)
Theorem run_ends_on_raise fd src (pre post : list string) (t : string)
  (e : Exn) (last_poll : Z) (fuel : nat) w :
  handler_returns fd ->
  NoDup (_tickers fd) ->
  well_formed (store w) ->
  unique_timestamps (store w) ->
  _running fd = true ->
  _poll_interval fd <= clock w - last_poll ->
  _tickers fd = pre ++ t :: post ->
  (forall i u, pre !! i = Some u ->
     exists df, history src (fetches w + i) u (_poll_lookback fd)
                        (_interval fd) = Ok df) ->
  history src (fetches w + length pre) t (_poll_lookback fd) (_interval fd)
  = Raise e ->
  exists w',
    feed.run_loop (S fuel) fd src last_poll w = (Raise e, w')
    /\ feed._poll_all fd src w = (Raise e, w')
    /\ fetched (trace w') = fetched (trace w) ++ pre ++ [t].
Proof.
  intros Hret _ _ _ Hrun Hdue Htick Hpre Ht.
  destruct (poll_from_raise fd src pre post t e Hret w Hpre Ht)
    as (w' & E & Hf).
  exists w'. unfold feed._poll_all. rewrite Htick.
  split; [| split; [exact E | exact Hf]].
  simpl. rewrite Hrun. unfold bind at 1. unfold feed.run_iteration.
  rewrite (proj2 (Z.leb_le _ _)) by exact Hdue.
  unfold bind at 1. unfold bind at 1. unfold feed._poll_all.
  rewrite Htick, E. reflexivity.
Qed.

(** X18.  As long as the poll period has not elapsed since the last poll, the
    passes of the run loop only sleep: [n] passes leave the cache, the fetch
    counter and the trace as they were and move the clock by [n] sleeps. *)
Theorem run_idle_passes fd src (last_poll : Z) (n : nat) w :
  _running fd = true ->
  clock w + 100000000 * (Z.of_nat n - 1) - last_poll < _poll_interval fd ->
  feed.run_loop n fd src last_poll w
  = (Ok last_poll,
     mkWorld (store w) (clock w + 100000000 * Z.of_nat n) (fetches w)
             (trace w)).
Proof.
  intros Hrun. revert w. induction n as [| n IH]; intros w Hidle.
  - simpl. unfold ret. destruct w. simpl. f_equal. f_equal. lia.
  - cbn [feed.run_loop]. rewrite Hrun. unfold bind at 1.
    unfold feed.run_iteration.
    rewrite (proj2 (Z.leb_gt _ _)) by lia.
    unfold bind, ret, sleep. cbn [store clock fetches trace].
    match goal with
    | |- context [feed.run_loop n fd src last_poll ?w1] =>
        rewrite (IH w1) by (cbn [clock]; lia)
    end.
    cbn [store clock fetches trace]. f_equal. f_equal. lia.
Qed.

End FeedFrame.

(** ** Properties of the portfolio state *)

Section StateFacts.

Context {fo : FloatOps}.

Implicit Types (self : PortfolioState fo) (ticker u : string).

(** X19.  [open_position] records the position under its ticker whether or not
    one was open: afterwards [has_position] holds and [get_position] returns
    exactly the returned position; a position the ticker had before is
    replaced, and the other tickers keep theirs. *)
Theorem open_position_records ticker (entry_price stop_loss : flt fo)
  (shares : Z) (entry_date : string) self :
  let position := mkPosition ticker entry_price shares stop_loss entry_date in
  let self' := snd (state.open_position ticker entry_price shares stop_loss
                                        entry_date self) in
  fst (state.open_position ticker entry_price shares stop_loss entry_date self)
  = Ok position
  /\ state.get_position ticker self' = Some position
  /\ state.has_position ticker self' = true
  /\ (forall u, u <> ticker ->
        state.get_position u self' = state.get_position u self)
  /\ state.risk_amount self' = state.risk_amount self.
Proof.
  cbv zeta. unfold state.open_position, state.get_position, state.has_position.
  simpl. rewrite lookup_insert_eq.
  split; [reflexivity |]. split; [reflexivity |].
  split; [apply bool_decide_eq_true; eauto |].
  split; [| reflexivity].
  intros u Hu. now apply lookup_insert_ne.
Qed.

(** X20.  [close_position] on a ticker without a position returns [None] and
    changes nothing.  On a ticker with a position it removes the position
    first and computes afterwards: if the arithmetic goes through, the result
    carries the ticker, the entry price and the shares of the removed
    position and the given exit price; if it raises (as the division by a
    zero entry price does), the exception comes out and the position is gone
    all the same.  Other tickers keep their positions in every case. *)
Theorem close_position_outcomes ticker (exit_price : flt fo) self :
  let r := state.close_position ticker exit_price self in
  (state.get_position ticker self = None -> r = (Ok None, self))
  /\ (forall pos, state.get_position ticker self = Some pos ->
        state.get_position ticker (snd r) = None
        /\ state.has_position ticker (snd r) = false
        /\ (forall closed, fst r = Ok closed ->
              exists pnl pnl_pct,
                closed = Some (mkClosed ticker (pos_entry_price pos) exit_price
                                        (pos_shares pos) pnl pnl_pct))
        /\ (forall e,
              fdiv fo (fsub fo exit_price (pos_entry_price pos))
                   (pos_entry_price pos) = Raise e ->
              exists e', fst r = Raise e'))
  /\ (forall u, u <> ticker ->
        state.get_position u (snd r) = state.get_position u self).
Proof.
  cbv zeta. unfold state.close_position, state.get_position, state.has_position.
  split; [| split].
  - intros H. now rewrite H.
  - intros pos H. rewrite H. unfold bind, lift_result, ret.
    destruct (fmul_int fo _ (pos_shares pos)) as [pnl | e1] eqn:E1;
      [destruct (fdiv fo _ _) as [q | e2] eqn:E2;
       [destruct (fmul_int fo q 100) as [pct | e3] eqn:E3 |] |];
      simpl; rewrite lookup_delete_eq;
      (split; [reflexivity |]);
      (split; [apply bool_decide_eq_false; intros [x Hx]; discriminate |]);
      (split; [intros closed Hc; try discriminate | intros e He; try discriminate;
                                                     eauto]).
    injection Hc as <-. eauto.
  - intros u Hu. destruct (positions self !! ticker) as [pos |]; [| reflexivity].
    unfold bind, lift_result, ret.
    destruct (fmul_int fo _ (pos_shares pos)) as [pnl | e1];
      [destruct (fdiv fo _ _) as [q | e2];
       [destruct (fmul_int fo q 100) as [pct | e3] |] |];
      simpl; now apply lookup_delete_ne.
Qed.

(** X21.  Opening a position for a ticker that has none and closing it again gives
    back the positions as they were. *)
Theorem open_close_round_trip ticker (entry_price stop_loss exit_price : flt fo)
  (shares : Z) (entry_date : string) self :
  state.has_position ticker self = false ->
  let opened := snd (state.open_position ticker entry_price shares stop_loss
                                         entry_date self) in
  snd (state.close_position ticker exit_price opened) = self.
Proof.
  intros Hnone. cbv zeta.
  unfold state.has_position in Hnone. apply bool_decide_eq_false in Hnone.
  assert (Hn : positions self !! ticker = None).
  { destruct (positions self !! ticker) eqn:E; [| reflexivity].
    exfalso. apply Hnone. eauto. }
  unfold state.close_position, state.open_position. simpl.
  rewrite lookup_insert_eq. unfold bind, lift_result, ret.
  assert (Hd : state.set_positions
                 (delete ticker (<[ticker := mkPosition ticker entry_price shares
                                              stop_loss entry_date]>
                                   (positions self)))
                 (state.set_positions
                    (<[ticker := mkPosition ticker entry_price shares stop_loss
                                            entry_date]> (positions self)) self)
               = self).
  { unfold state.set_positions. simpl.
    rewrite delete_insert_eq, delete_id by exact Hn. now destruct self. }
  simpl.
  destruct (fmul_int fo (fsub fo exit_price entry_price) shares) as [pnl | e1];
    [destruct (fdiv fo (fsub fo exit_price entry_price) entry_price)
       as [q | e2];
     [destruct (fmul_int fo q 100) as [pct | e3] |] |];
    simpl; exact Hd.
Qed.

End StateFacts.

(** ** Properties of the ticker selection *)

Section SelectorFacts.

Lemma symbols_all_present (quotes : list (gmap string string)) :
  Forall (fun stock => is_Some (stock !! "symbol"%string)) quotes ->
  exists l,
    ticker_selector.symbols quotes = Ok l
    /\ length l = length quotes
    /\ (forall i stock, quotes !! i = Some stock ->
          l !! i = stock !! "symbol"%string).
Proof.
  induction 1 as [| stock quotes [sym Hs] _ (l & E & Hlen & Hl)]; simpl.
  - exists []. repeat split. intros i stock H. discriminate.
  - rewrite Hs, E. exists (sym :: l). split; [reflexivity |].
    split; [simpl; now rewrite Hlen |].
    intros [| i] st H; simpl in *.
    + injection H as <-. now rewrite Hs.
    + now apply Hl.
Qed.

(** X22.  With a count [n] that is not negative and the first [n] quotes carrying a
    symbol, the selection is the symbols of the first [n] quotes in the
    screener's order: [n] of them, or all if there are fewer (none if the
    answer has no quotes). *)
Theorem top_tickers_are_prefix
  (result : gmap string (list (gmap string string))) (n : Z)
  (quotes : list (gmap string string)) :
  0 <= n ->
  default [] (result !! "quotes"%string) = quotes ->
  Forall (fun stock => is_Some (stock !! "symbol"%string))
         (firstn (Z.to_nat n) quotes) ->
  exists l,
    ticker_selector.get_top_liquid_tech_stocks result n = Ok l
    /\ length l = Nat.min (Z.to_nat n) (length quotes)
    /\ (forall i stock, (i < Z.to_nat n)%nat -> quotes !! i = Some stock ->
          l !! i = stock !! "symbol"%string).
Proof.
  intros Hn Hq Hall. unfold ticker_selector.get_top_liquid_tech_stocks.
  rewrite Hq. unfold ticker_selector.slice_to.
  rewrite (proj2 (Z.ltb_ge n 0)) by lia.
  destruct (symbols_all_present (firstn (Z.to_nat n) quotes) Hall)
    as (l & E & Hlen & Hl).
  exists l. split; [exact E |]. split.
  - rewrite Hlen. apply length_firstn.
  - intros i stock Hi Hst. apply Hl.
    change (firstn (Z.to_nat n) quotes) with (take (Z.to_nat n) quotes).
    now rewrite lookup_take_lt.
Qed.

(** X23.  A quote without a symbol among the selected ones makes the selection
    raise [KeyError]; quotes beyond the first [n] are not looked at. *)
Theorem top_tickers_missing_symbol
  (result : gmap string (list (gmap string string))) (n : Z) (i : nat)
  (stock : gmap string string) :
  0 <= n ->
  (i < Z.to_nat n)%nat ->
  default [] (result !! "quotes"%string) !! i = Some stock ->
  stock !! "symbol"%string = None ->
  ticker_selector.get_top_liquid_tech_stocks result n = Raise KeyError.
Proof.
  intros Hn Hi Hst Hnone. unfold ticker_selector.get_top_liquid_tech_stocks.
  unfold ticker_selector.slice_to. rewrite (proj2 (Z.ltb_ge n 0)) by lia.
  assert (Hin : firstn (Z.to_nat n) (default [] (result !! "quotes"%string)) !! i
                = Some stock).
  { change (firstn ?k ?l) with (take k l). now rewrite lookup_take_lt. }
  revert Hin. generalize (firstn (Z.to_nat n)
                            (default [] (result !! "quotes"%string))).
  clear -Hnone. intros l. revert i.
  induction l as [| x l IH]; intros i H; [discriminate |].
  simpl. destruct i as [| i]; simpl in H.
  - injection H as ->. now rewrite Hnone.
  - destruct (x !! "symbol"%string); [| reflexivity].
    now rewrite (IH i H).
Qed.

End SelectorFacts.

(** ** Concrete runs of the further properties *)

(** A batch of four rows fed to the primed cache: the first two are not
    looked at. *)
Lemma update_ignores_earlier_rows_witness :
  update (days 10) X (Some (baseline ++ [(days 9, tests.candle 105);
                                         (days 10, tests.candle 102)])) primed
  = update (days 10) X (Some [(days 9, tests.candle 105);
                              (days 10, tests.candle 102)]) primed.
Proof.
  apply (update_ignores_earlier_rows (days 10) X primed baseline).
  vm_compute. eauto.
Defined.

Lemma update_flag_witness :
  fst (update (days 10) X (Some poll) primed)
  = Ok (match Some poll with
        | Some new_candles => negb (pd.empty new_candles)
        | None => false
        end).
Proof.
  apply (update_flag (days 10) X (Some poll) primed).
  intros old H. vm_compute in H. injection H as <-.
  apply (bool_decide_unpack _). vm_compute. reflexivity.
Defined.

Lemma later_load_contents_witness :
  exists s' rows,
    update (days 10) X (Some ([] ++ [(days 9, tests.candle 105);
                                     (days 10, tests.candle 102)])) primed
    = (Ok true, s')
    /\ stored s' X = Some rows
    /\ (forall r,
          In r rows <->
          days 10 - _max_period (self primed) <= fst r
          /\ (r = (days 10, tests.candle 102)
              \/ (r = (days 9, tests.candle 105)
                  /\ fst (days 9, tests.candle 105)
                     <> fst (days 10, tests.candle 102))
              \/ (In r baseline /\ fst r <> fst (days 9, tests.candle 105)
                  /\ fst r <> fst (days 10, tests.candle 102))))
    /\ (length rows <= length baseline + 2)%nat.
Proof.
  apply (later_load_contents (days 10) X primed baseline []).
  - vm_compute. reflexivity.
  - apply (bool_decide_unpack _). vm_compute. reflexivity.
Defined.

Lemma single_load_contents_witness :
  exists s' rows,
    update (days 10) X (Some [(days 10, tests.candle 102)]) primed
    = (Ok true, s')
    /\ stored s' X = Some rows
    /\ (forall r,
          In r rows <->
          days 10 - _max_period (self primed) <= fst r
          /\ (r = (days 10, tests.candle 102)
              \/ (In r baseline /\ fst r <> fst (days 10, tests.candle 102))))
    /\ (length rows <= length baseline + 1)%nat.
Proof.
  apply (single_load_contents (days 10) X primed baseline).
  - vm_compute. reflexivity.
  - apply (bool_decide_unpack _). vm_compute. reflexivity.
Defined.

Lemma evict_twice_witness :
  exists s1 s2 s2',
    _evict_old (days 38) X primed = (Ok tt, s1)
    /\ _evict_old (days 39) X s1 = (Ok tt, s2)
    /\ _evict_old (days 39) X primed = (Ok tt, s2')
    /\ stored s2 X = stored s2' X
    /\ stored s2 X
       = Some (pd.mask_ge (days 39 - _max_period (self primed)) baseline).
Proof.
  apply (evict_twice (days 38) (days 39) X primed baseline).
  - vm_compute. reflexivity.
  - vm_compute. intros H. discriminate H.
Defined.

Lemma evict_nothing_to_do_witness :
  _evict_old (days 10) AAPL primed = (Ok tt, primed).
Proof.
  apply (evict_nothing_to_do (days 10) AAPL primed). left.
  vm_compute. reflexivity.
Defined.

Lemma update_keeps_entries_witness :
  is_Some (_data (self (snd (update (days 100) X (Some poll) primed))) !! X).
Proof.
  apply (update_keeps_entries (days 100) X (Some poll) primed X).
  vm_compute. eauto.
Defined.

Lemma first_load_all_evicted_witness :
  exists s',
    update (days 100) X (Some baseline) fresh30 = (Ok true, s')
    /\ stored s' X = Some []
    /\ count s' X = 0%nat.
Proof.
  apply (first_load_all_evicted (days 100) X baseline fresh30).
  - discriminate.
  - reflexivity.
  - repeat constructor.
Defined.

Lemma update_other_ticker_witness :
  _data (self (snd (update (days 10) AAPL (Some daily_baseline) fresh30))) !! X
  = _data (self fresh30) !! X
  /\ stored (snd (update (days 10) AAPL (Some daily_baseline) fresh30)) X
     = stored fresh30 X.
Proof.
  apply (update_other_ticker (days 10) AAPL (Some daily_baseline) fresh30 X).
  - intros t l H. vm_compute in H. discriminate H.
  - discriminate.
Defined.

Lemma update_all_other_tickers_witness :
  stored (update_all aapl_calls (update_all prime_calls (new_cache (days 30) [])))
         X
  = stored (update_all prime_calls (new_cache (days 30) [])) X.
Proof.
  apply (update_all_other_tickers aapl_calls (days 30) [] prime_calls X).
  repeat constructor; discriminate.
Defined.

Lemma histories_stay_ascending_witness :
  ascending [(days 9, tests.candle 100); (days 10, tests.candle 105);
             (days 11, tests.candle 102)]
  /\ NoDup (pd.index [(days 9, tests.candle 100); (days 10, tests.candle 105);
                      (days 11, tests.candle 102)]).
Proof.
  apply (histories_stay_ascending (days 30) [] aapl_calls AAPL).
  - repeat constructor.
  - vm_compute. reflexivity.
Defined.

Lemma steady_source_ascending n t (df : DataFrame) :
  history steady_source n t (_lookback_period two_tickers)
          (_interval two_tickers) = Ok df ->
  ascending df.
Proof.
  intros H. unfold steady_source in H. cbn [history] in H.
  injection H as H. subst df. repeat constructor.
Qed.

Lemma initialize_histories_ascending_witness :
  ascending (tests.make_candles (days 1000) [2; 1] [100; 101])
  /\ NoDup (pd.index (tests.make_candles (days 1000) [2; 1] [100; 101])).
Proof.
  apply (initialize_histories_ascending two_tickers steady_source world0
           default_max_period [] MSFT).
  - reflexivity.
  - apply steady_source_ascending.
  - vm_compute. reflexivity.
Defined.

Lemma poll_all_empty_witness :
  exists w',
    feed._poll_all two_tickers closed_market world0 = (Ok tt, w')
    /\ store w' = store world0
    /\ callbacks (trace w') = callbacks (trace world0)
    /\ fetched (trace w') = fetched (trace world0) ++ _tickers two_tickers.
Proof.
  apply (poll_all_empty two_tickers closed_market world0).
  intros n t. reflexivity.
Defined.

Lemma initialize_counts_retained_witness :
  exists m w',
    facade.initialize two_tickers steady_source world0 = (Ok m, w')
    /\ (forall i t df,
          _tickers two_tickers !! i = Some t ->
          history steady_source (fetches world0 + i) t
                  (_lookback_period two_tickers) (_interval two_tickers)
          = Ok df ->
          m !! t = Some (length (pd.mask_ge (clock world0 - default_max_period)
                                            df))).
Proof.
  apply (initialize_counts_retained two_tickers steady_source world0
           default_max_period []).
  - reflexivity.
  - apply NoDup_cons. split.
    + apply not_elem_of_cons. split; [discriminate | apply not_elem_of_nil].
    + apply NoDup_cons. split; [apply not_elem_of_nil | constructor].
  - intros n t. eexists. reflexivity.
Defined.

Lemma watched_pair_returns : handler_returns watched_pair.
Proof. intros h df t [= <-]. reflexivity. Qed.

Lemma watched_pair_distinct : NoDup (_tickers watched_pair).
Proof.
  apply NoDup_cons. split.
  - apply not_elem_of_cons. split; [discriminate | apply not_elem_of_nil].
  - apply NoDup_cons. split; [apply not_elem_of_nil | constructor].
Qed.

Lemma world0_unique_timestamps : unique_timestamps (store world0).
Proof. intros t old H. unfold stored in H. simpl in H. discriminate H. Qed.

Lemma poll_callbacks_witness :
  callbacks (trace (snd (feed._poll_all watched_pair steady_source world0)))
  = callbacks (trace world0)
    ++ (if bool_decide (is_Some (_handler watched_pair))
        then fetched_nonempty steady_source (_poll_lookback watched_pair)
                              (_interval watched_pair) (fetches world0)
                              (_tickers watched_pair)
        else []).
Proof.
  apply (poll_callbacks watched_pair steady_source world0).
  - exact watched_pair_returns.
  - exact watched_pair_distinct.
  - apply new_cache_well_formed.
  - exact world0_unique_timestamps.
Defined.

Lemma run_ends_on_raise_witness :
  exists w',
    feed.run_loop 3 watched_pair failing_source 0 world0
    = (Raise (SourceError "timeout"), w')
    /\ feed._poll_all watched_pair failing_source world0
       = (Raise (SourceError "timeout"), w')
    /\ fetched (trace w') = fetched (trace world0) ++ [MSFT] ++ [AAPL].
Proof.
  apply (run_ends_on_raise watched_pair failing_source [MSFT] [] AAPL
           (SourceError "timeout") 0 2 world0).
  - exact watched_pair_returns.
  - exact watched_pair_distinct.
  - apply new_cache_well_formed.
  - exact world0_unique_timestamps.
  - reflexivity.
  - vm_compute. intros H. discriminate H.
  - reflexivity.
  - intros [| i] u H; [| destruct i; discriminate H].
    injection H as <-. eexists. reflexivity.
  - reflexivity.
Defined.

Lemma run_idle_passes_witness :
  feed.run_loop 50 (feed.set_running true every_10s) failing_source
                (days 1000) world_4s
  = (Ok (days 1000),
     mkWorld (store world_4s) (clock world_4s + 100000000 * Z.of_nat 50)
             (fetches world_4s) (trace world_4s)).
Proof.
  apply (run_idle_passes (feed.set_running true every_10s) failing_source
           (days 1000) 50 world_4s).
  - reflexivity.
  - vm_compute. reflexivity.
Defined.

Lemma open_position_records_witness :
  state.get_position MSFT
    (snd (@state.open_position rationals AAPL (inject_Z 150) 10
                               (inject_Z 140) "2026-01-02" empty_portfolio))
  = state.get_position MSFT empty_portfolio.
Proof.
  destruct (open_position_records AAPL (inject_Z 150 : flt rationals)
              (inject_Z 140 : flt rationals) 10 "2026-01-02" empty_portfolio)
    as (_ & _ & _ & H & _).
  apply H. discriminate.
Defined.

Lemma close_position_outcomes_witness :
  state.close_position AAPL (inject_Z 160 : flt rationals) empty_portfolio
  = (Ok None, empty_portfolio).
Proof.
  apply (proj1 (close_position_outcomes AAPL (inject_Z 160 : flt rationals)
                  empty_portfolio)).
  reflexivity.
Defined.

Lemma open_close_round_trip_witness :
  snd (state.close_position AAPL (inject_Z 160 : flt rationals)
         (snd (@state.open_position rationals AAPL (inject_Z 150) 10
                                    (inject_Z 140) "2026-01-02"
                                    empty_portfolio)))
  = empty_portfolio.
Proof.
  apply (open_close_round_trip AAPL (inject_Z 150 : flt rationals)
           (inject_Z 140 : flt rationals) (inject_Z 160 : flt rationals) 10
           "2026-01-02" empty_portfolio).
  reflexivity.
Defined.

Lemma top_tickers_are_prefix_witness :
  exists l,
    ticker_selector.get_top_liquid_tech_stocks screened 1 = Ok l
    /\ length l = Nat.min (Z.to_nat 1) (length [quote_nvda; quote_nameless])
    /\ (forall i stock, (i < Z.to_nat 1)%nat ->
          [quote_nvda; quote_nameless] !! i = Some stock ->
          l !! i = stock !! "symbol"%string).
Proof.
  apply (top_tickers_are_prefix screened 1 [quote_nvda; quote_nameless]).
  - lia.
  - reflexivity.
  - repeat constructor. vm_compute. eauto.
Defined.

Lemma top_tickers_missing_symbol_witness :
  ticker_selector.get_top_liquid_tech_stocks screened 20 = Raise KeyError.
Proof.
  apply (top_tickers_missing_symbol screened 20 1 quote_nameless).
  - lia.
  - vm_compute. lia.
  - reflexivity.
  - reflexivity.
Defined.
